(** * Parametric 2D potential flow: the problem description of
      [demo_cases/parametric_potential_flow/potential_flow_2d.py]

    The Python module builds, with sympy and the Modulus geometry and
    domain classes, (a) the symbolic equation system [Poisson_2D],
    (b) a rectangle and two rotated line primitives, (c) the training
    domain [PotentialTrain] made of seven named sub-domains and (d) the
    solver binding [PotentialSolver].

    Conventions of the embedding:
    - a sympy expression is a term of [expr]; Python numbers (ints and
      float literals such as [0.10]) are exact rationals, and the value of
      an expression at a point is a real number ([eval]), so rounding of
      binary floating point is idealised away;
    - a Python dict used as a map is a [gmap] keyed by the string name;
    - [np.random] is an explicit generator state threaded through the
      sampling rule;
    - a Python exception is the left injection of a sum. *)

From Stdlib Require Import Reals Lra Lia QArith Qreals Psatz Ascii String.
From stdpp Require Import gmap strings list fin_maps.

Local Open Scope string_scope.

(** ** Symbolic expressions (the fragment of sympy the module uses) *)

Inductive expr : Type :=
| Num (q : Q)                               (* Integer / Float constant   *)
| Sym (s : string)                          (* Symbol('s')                *)
| Add (a b : expr)                          (* a + b                      *)
| Mul (a b : expr)                          (* a * b                      *)
| Div (a b : expr)                          (* a / b                      *)
| Pow (a : expr) (n : nat)                  (* a ** n, n a literal        *)
| Sin (a : expr)
| Cos (a : expr)
| App (f : string) (args : list string)     (* applied undefined function *)
| Deriv (e : expr) (wrt : list string).     (* Derivative of e in wrt     *)

(** Relational expressions used as sampling criteria. *)
Inductive rel : Type :=
| Eq (a b : expr)
| Ge (a b : expr).

Definition env := string -> R.

Definition lift2 (f : R -> R -> R) (a b : option R) : option R :=
  match a, b with
  | Some u, Some v => Some (f u v)
  | _, _ => None
  end.

(** Value of an expression at a point.  An applied undefined function and
    an unevaluated derivative have no numeric value; a division by zero
    has none either. *)
Fixpoint eval (rho : env) (e : expr) : option R :=
  match e with
  | Num q => Some (Q2R q)
  | Sym s => Some (rho s)
  | Add a b => lift2 Rplus (eval rho a) (eval rho b)
  | Mul a b => lift2 Rmult (eval rho a) (eval rho b)
  | Div a b =>
      match eval rho a, eval rho b with
      | Some u, Some v => if Req_dec_T v 0 then None else Some (u / v)%R
      | _, _ => None
      end
  | Pow a n => option_map (fun u => (u ^ n)%R) (eval rho a)
  | Sin a => option_map sin (eval rho a)
  | Cos a => option_map cos (eval rho a)
  | App _ _ => None
  | Deriv _ _ => None
  end.

Definition holds (rho : env) (r : rel) : Prop :=
  match r with
  | Eq a b =>
      match eval rho a, eval rho b with
      | Some u, Some v => u = v
      | _, _ => False
      end
  | Ge a b =>
      match eval rho a, eval rho b with
      | Some u, Some v => (u >= v)%R
      | _, _ => False
      end
  end.

(** The same evaluation on rational points, for the trigonometry-free
    fragment: this one computes. *)
Definition envQ := string -> Q.

Definition lift2Q (f : Q -> Q -> Q) (a b : option Q) : option Q :=
  match a, b with
  | Some u, Some v => Some (f u v)
  | _, _ => None
  end.

Fixpoint qpow (u : Q) (n : nat) : Q :=
  match n with
  | O => 1
  | S m => u * qpow u m
  end.

Fixpoint evalQ (rho : envQ) (e : expr) : option Q :=
  match e with
  | Num q => Some q
  | Sym s => Some (rho s)
  | Add a b => lift2Q Qplus (evalQ rho a) (evalQ rho b)
  | Mul a b => lift2Q Qmult (evalQ rho a) (evalQ rho b)
  | Div a b =>
      match evalQ rho a, evalQ rho b with
      | Some u, Some v => if Qeq_bool v 0 then None else Some (u / v)%Q
      | _, _ => None
      end
  | Pow a n => option_map (fun u => qpow u n) (evalQ rho a)
  | Sin _ | Cos _ | App _ _ | Deriv _ _ => None
  end.

Definition holdsb (rho : envQ) (r : rel) : option bool :=
  match r with
  | Eq a b =>
      match evalQ rho a, evalQ rho b with
      | Some u, Some v => Some (Qeq_bool u v)
      | _, _ => None
      end
  | Ge a b =>
      match evalQ rho a, evalQ rho b with
      | Some u, Some v => Some (Qle_bool v u)
      | _, _ => None
      end
  end.

(** *** Symbolic differentiation: [e.diff(x)] *)

Definition mem_string (x : string) (l : list string) : bool :=
  existsb (String.eqb x) l.

(** Does the symbol [x] occur free in [e]? *)
Fixpoint occurs (x : string) (e : expr) : bool :=
  match e with
  | Num _ => false
  | Sym s => String.eqb x s
  | Add a b | Mul a b | Div a b => occurs x a || occurs x b
  | Pow a _ | Sin a | Cos a => occurs x a
  | App _ args => mem_string x args
  | Deriv a _ => occurs x a
  end.

(** sympy differentiates sums, products, quotients, powers and the
    elementary functions by the usual rules; the derivative of an applied
    undefined function stays a [Derivative] node, and differentiating a
    [Derivative] node again extends its list of variables.  An expression
    that does not depend on [x] differentiates to zero. *)
Fixpoint diff (e : expr) (x : string) : expr :=
  match e with
  | Num _ => Num 0
  | Sym s => if String.eqb x s then Num 1 else Num 0
  | Add a b => Add (diff a x) (diff b x)
  | Mul a b => Add (Mul (diff a x) b) (Mul a (diff b x))
  | Div a b =>
      Div (Add (Mul (diff a x) b) (Mul (Num (-1)) (Mul a (diff b x))))
          (Pow b 2)
  | Pow a n =>
      match n with
      | O => Num 0
      | S m => Mul (Mul (Num (inject_Z (Z.of_nat n))) (Pow a m)) (diff a x)
      end
  | Sin a => Mul (Cos a) (diff a x)
  | Cos a => Mul (Mul (Num (-1)) (Sin a)) (diff a x)
  | App f args =>
      if mem_string x args then Deriv (App f args) [x] else Num 0
  | Deriv a wrt =>
      if occurs x a then Deriv a (wrt ++ [x]) else Num 0
  end.

(** [e.subs(f(args), body)]: replace every occurrence of the applied
    function by [body]. *)
Fixpoint subs (f : string) (args : list string) (body : expr) (e : expr)
  : expr :=
  match e with
  | Num q => Num q
  | Sym s => Sym s
  | Add a b => Add (subs f args body a) (subs f args body b)
  | Mul a b => Mul (subs f args body a) (subs f args body b)
  | Div a b => Div (subs f args body a) (subs f args body b)
  | Pow a n => Pow (subs f args body a) n
  | Sin a => Sin (subs f args body a)
  | Cos a => Cos (subs f args body a)
  | App g bs =>
      if String.eqb f g && bool_decide (args = bs) then body else App g bs
  | Deriv a wrt => Deriv (subs f args body a) wrt
  end.

(** [e.doit()]: carry out the pending derivatives. *)
Fixpoint doit (e : expr) : expr :=
  match e with
  | Num q => Num q
  | Sym s => Sym s
  | Add a b => Add (doit a) (doit b)
  | Mul a b => Mul (doit a) (doit b)
  | Div a b => Div (doit a) (doit b)
  | Pow a n => Pow (doit a) n
  | Sin a => Sin (doit a)
  | Cos a => Cos (doit a)
  | App g bs => App g bs
  | Deriv a wrt => fold_left diff wrt (doit a)
  end.

(** [get_angle(theta, magnitude)] *)
Definition get_angle (theta magnitude : R) : R * R :=
  ((cos theta * magnitude)%R, (sin theta * magnitude)%R).

(** ** The equation system [Poisson_2D] *)

Module Poisson_2D.

Definition name : string := "Poisson_2D".

Definition x : expr := Sym "x".
Definition y : expr := Sym "y".
Definition alpha : expr := Sym "alpha".

(** [input_variables = {'x': x, 'y': y, 'alpha': alpha}], in insertion
    order. *)
Definition input_variables : list (string * expr) :=
  [("x", x); ("y", y); ("alpha", alpha)].

(** [phi] is [Function('phi')] applied to the unpacked
    [input_variables]: unpacking a dict yields its keys, which sympy turns into the symbols of the same names. *)
Definition phi : expr := App "phi" (map fst input_variables).

(** [self.equations], after the three assignments of [__init__]. *)
Definition equations : gmap string expr :=
  <["Poisson_2D" := Add (diff (diff phi "x") "x") (diff (diff phi "y") "y")]>
  (<["v" := diff phi "y"]>
  (<["u" := diff phi "x"]> ∅)).

End Poisson_2D.

(** ** Module-level parameters and geometry *)

Definition obstacle_length : Q := 0.10.
Definition height : Q := 6 * obstacle_length.
Definition width : Q := 6 * obstacle_length.

Definition point := (Q * Q)%type.

Record Rectangle := mkRectangle { point_1 : point; point_2 : point }.

(** Modelled from the spec: the [Line] primitive of the geometry library,
    which is not part of this repository.  A line keeps its two defining
    end points and its normal sign; [rotate] turns the primitive in place
    about the origin (a rigid transform, spec 4.2), which the record keeps
    as the accumulated [angle]. *)
Record Line := mkLine
  { line_point_1 : point; line_point_2 : point; normal : Z; angle : R }.

Definition new_Line (p1 p2 : point) (n : Z) : Line :=
  {| line_point_1 := p1; line_point_2 := p2; normal := n; angle := 0%R |}.

Definition rotate (theta : R) (l : Line) : Line :=
  {| line_point_1 := line_point_1 l; line_point_2 := line_point_2 l;
     normal := normal l; angle := (angle l + theta)%R |}.

(** Position of a defining point after the accumulated rotation. *)
Definition rotated (theta : R) (p : point) : R * R :=
  let px := Q2R (fst p) in
  let py := Q2R (snd p) in
  ((px * cos theta - py * sin theta)%R, (px * sin theta + py * cos theta)%R).

Definition end_1 (l : Line) : R * R := rotated (angle l) (line_point_1 l).
Definition end_2 (l : Line) : R * R := rotated (angle l) (line_point_2 l).

Definition rec : Rectangle :=
  mkRectangle ((- width / 2)%Q, (- height / 2)%Q) ((width / 2)%Q, (height / 2)%Q).

(** [obstacle] and [wake], after the two [rotate(np.pi / 2)] statements. *)
Definition obstacle : Line :=
  rotate (PI / 2) (new_Line (0, 0)%Q (0, obstacle_length)%Q 1).
Definition wake : Line :=
  rotate (PI / 2) (new_Line (0, (- 3 * obstacle_length))%Q (0, 0)%Q 1).

Definition geo : Rectangle := rec.

Definition x : expr := Sym "x".
Definition y : expr := Sym "y".
Definition alpha : expr := Sym "alpha".

(** ** The random generator and the parameter sampling rule *)

(** [np.random] as explicit state: the generator is a tape of unit draws
    and the position of the next one. *)
Record rng := mkRng { tape : nat -> R; pos : nat }.

Definition valid_rng (s : rng) : Prop :=
  forall k, (0 <= tape s k < 1)%R.

Definition random_sample (s : rng) : R * rng :=
  (tape s (pos s), {| tape := tape s; pos := S (pos s) |}).

(** [np.random.uniform(low, high)] *)
Definition uniform (low high : R) (s : rng) : R * rng :=
  let (u, s') := random_sample s in
  ((low + (high - low) * u)%R, s').

(** [np.full((rows, cols), v)] *)
Definition np_full (rows cols : nat) (v : R) : list (list R) :=
  repeat (repeat v cols) rows.

Definition sampling_rule := nat -> rng -> list (list R) * rng.

Definition alpha_low : R := (- PI * 10 / 180)%R.
Definition alpha_high : R := (PI * 10 / 180)%R.

(** The lambda stored under [alpha]: the argument of [np.full] is
    evaluated, hence drawn, once in every call.  (The module-level set
    [param_ranges] of line 65 is used nowhere.) *)
Definition alpha_rule : sampling_rule :=
  fun batch_size s =>
    let (v, s') := uniform alpha_low alpha_high s in
    (np_full batch_size 1 v, s').

Definition fixed_param_range : gmap string sampling_rule :=
  {[ "alpha" := alpha_rule ]}.

(** ** Sub-domains and the training domain *)

Inductive geometry : Type :=
| GRectangle (r : Rectangle)
| GLine (l : Line).

(** A value of [lambda_sympy]: a number, or the [sdf] attribute of a
    geometry. *)
Inductive weight : Type :=
| WNum (q : Q)
| WSdf (g : geometry).

Definition sdf (r : Rectangle) : weight := WSdf (GRectangle r).

Inductive bc_kind : Type := BoundaryBC | InteriorBC.

Record bc := mkBC
  { kind : bc_kind;
    region : geometry;
    outvar_sympy : gmap string expr;
    batch_size_per_area : Z;
    lambda_sympy : gmap string weight;
    criteria : option rel;
    bounds : option (gmap string (Q * Q));
    param_ranges : gmap string sampling_rule;
    fixed_var : bool }.

(** [geometry.boundary_bc(...)]; an omitted [lambda_sympy] is an empty
    mapping and an omitted [criteria] is [None]. *)
Definition boundary_bc (g : geometry) (outvar : gmap string expr)
    (bspa : Z) (lam : gmap string weight) (crit : option rel)
    (ranges : gmap string sampling_rule) (fixed : bool) : bc :=
  mkBC BoundaryBC g outvar bspa lam crit None ranges fixed.

(** [geometry.interior_bc(...)] *)
Definition interior_bc (g : geometry) (outvar : gmap string expr)
    (bnds : gmap string (Q * Q)) (lam : gmap string weight) (bspa : Z)
    (ranges : gmap string sampling_rule) (fixed : bool) : bc :=
  mkBC InteriorBC g outvar bspa lam None (Some bnds) ranges fixed.

(** A domain is the ordered collection of its named sub-domains;
    [self.add(bc, name=...)] appends. *)
Definition domain := list (string * bc).

Definition add (b : bc) (name : string) (d : domain) : domain :=
  (d ++ [(name, b)])%list.

Definition get (name : string) (d : domain) : option bc :=
  snd <$> List.find (fun nb => String.eqb name (fst nb)) d.

Definition is_interior (b : bc) : bool :=
  match kind b with InteriorBC => true | BoundaryBC => false end.

Module PotentialTrain.

Definition u_x : expr := Mul (Num 10) (Cos alpha).
Definition u_y : expr := Mul (Num 10) (Sin alpha).
Definition flow_rate : expr :=
  Add (Mul u_x (Num width)) (Mul u_y (Num height)).

Definition inletBC : bc :=
  boundary_bc (GRectangle geo)
    (<["v" := u_y]> (<["u" := u_x]> ∅))
    250 ∅
    (Some (Eq x (Num (- width / 2))))
    fixed_param_range false.

Definition outletBC : bc :=
  boundary_bc (GRectangle geo)
    (<["v" := u_y]> (<["u" := u_x]> ∅))
    500 ∅
    (Some (Ge (Add (Div y (Num height)) (Div x (Num width))) (Num (1 / 2))))
    fixed_param_range false.

Definition bottomWall : bc :=
  boundary_bc (GRectangle geo)
    (<["v" := u_y]> (<["u" := u_x]> ∅))
    250 ∅
    (Some (Eq y (Num (- height / 2))))
    fixed_param_range false.

Definition obstacleLine : bc :=
  boundary_bc (GLine obstacle)
    (<["v" := Num 0]> (<["u" := u_x]> ∅))
    500
    (<["lambda_v" := WNum 100]> (<["lambda_u" := WNum 100]> ∅))
    None
    fixed_param_range false.

(** [l = lambda x : (x)/(3*obstacle_length)] *)
Definition l (x : expr) : expr := Div x (Num (3 * obstacle_length)).

Definition wakeLine : bc :=
  boundary_bc (GLine wake)
    (<["v" := Mul u_y (l x)]> (<["u" := u_x]> ∅))
    500
    (<["lambda_v" := WNum 100]> (<["lambda_u" := WNum 100]> ∅))
    None
    fixed_param_range false.

Definition interior : bc :=
  interior_bc (GRectangle geo)
    (<["Poisson_2D" := Num 0]> ∅)
    (<["y" := ((- height / 2)%Q, (height / 2)%Q)]>
     (<["x" := ((- width / 2)%Q, (width / 2)%Q)]> ∅))
    (<["lambda_Poisson_2D" := sdf geo]> ∅)
    2000
    fixed_param_range false.

Definition neighbourhood : bc :=
  interior_bc (GRectangle geo)
    (<["Poisson_2D" := Num 0]> ∅)
    (<["y" := ((- height / 8)%Q, (height / 8)%Q)]>
     (<["x" := ((- height / 3)%Q, (height / 3)%Q)]> ∅))
    (<["lambda_Poisson_2D" := sdf geo]> ∅)
    2000
    fixed_param_range false.

(** [PotentialTrain.__init__]: the sub-domains in the order they are
    added to the initially empty domain. *)
Definition init : domain :=
  add neighbourhood "Neighbourhood"
  (add interior "Interior"
  (add wakeLine "wakeLine"
  (add obstacleLine "obstacleLine"
  (add bottomWall "BottomWall"
  (add outletBC "Outlet"
  (add inletBC "Inlet" [])))))).

End PotentialTrain.

(** The point [(px, py)] together with the parameter value [a]. *)
Definition at_point (px py a : R) : env :=
  fun s =>
    if String.eqb s "x" then px
    else if String.eqb s "y" then py
    else if String.eqb s "alpha" then a
    else 0%R.

Definition at_pointQ (px py : Q) : envQ :=
  fun s =>
    if String.eqb s "x" then px
    else if String.eqb s "y" then py
    else 0%Q.

(** ** Sampling a training step *)

(** Modelled from the spec: the training loop that consumes the domain is
    outside this repository.  It calls each sub-domain's sampler in turn
    with a batch size (spec 6); a sub-domain's sampler obtains its
    parameter values from the rule stored in its own [param_ranges]. *)
Definition sample_alpha (b : bc) (n : nat) (s : rng)
  : option (list (list R)) * rng :=
  match param_ranges b !! "alpha" with
  | Some rule => let (vals, s') := (rule : sampling_rule) n s in (Some vals, s')
  | None => (None, s)
  end.

Fixpoint train_step (sizes : string -> nat) (d : domain) (s : rng)
  : list (string * option (list (list R))) * rng :=
  match d with
  | [] => ([], s)
  | (name, b) :: rest =>
      let (vals, s1) := sample_alpha b (sizes name) s in
      let (others, s2) := train_step sizes rest s1 in
      ((name, vals) :: others, s2)
  end.

(** The parameter batch a named sub-domain received in a step. *)
Definition alpha_of (name : string)
    (step : list (string * option (list (list R)))) : option (list (list R)) :=
  match List.find (fun nv => String.eqb name (fst nv)) step with
  | Some (_, v) => v
  | None => None
  end.

(** ** Errors, name resolution and the text of the inference class *)

Inductive py_error : Type :=
| SyntaxError (lineno : nat)
| NameError (name : string)
| TypeError (msg : string).

Definition result (A : Type) : Type := (py_error + A)%type.

(** Sequencing of two steps of which the first only matters by failing
    or not. *)
Definition and_then {A B : Type} (m : result A) (k : result B) : result B :=
  match m with
  | inl e => inl e
  | inr _ => k
  end.

Notation "m >> k" := (and_then m k) (at level 90, right associativity).

(** Names bound by the import statements (lines 1 to 15). *)
Definition imported_names : list string :=
  [ "Symbol"; "Eq"; "Ge"; "Abs"; "Function"; "Number"; "sin"; "cos";
    "PDES"; "Variables"; "time"; "Solver"; "TrainDomain";
    "ValidationDomain"; "Validation"; "parabola"; "Rectangle"; "Line";
    "csv_to_dict"; "NavierStokes"; "IntegralContinuity";
    "ModulusController"; "np"; "math"; "sys" ].

(** Names bound by the module's own top-level statements. *)
Definition defined_names : list string :=
  [ "get_angle"; "Poisson_2D"; "obstacle_length"; "height"; "width";
    "rec"; "obstacle"; "wake"; "geo"; "x"; "y"; "alpha"; "param_ranges";
    "fixed_param_range"; "PotentialTrain"; "PotentialInference";
    "PotentialSolver"; "ctr" ].

(** Python's built-in functions and constants (the exception classes, all
    named [...Error], [...Warning], [...Exception], [...Exit] or
    [...Interrupt] / [StopIteration], are not needed here). *)
Definition builtin_names : list string :=
  [ "abs"; "all"; "any"; "ascii"; "bin"; "bool"; "breakpoint"; "bytearray";
    "bytes"; "callable"; "chr"; "classmethod"; "compile"; "complex";
    "delattr"; "dict"; "dir"; "divmod"; "enumerate"; "eval"; "exec";
    "filter"; "float"; "format"; "frozenset"; "getattr"; "globals";
    "hasattr"; "hash"; "help"; "hex"; "id"; "input"; "int"; "isinstance";
    "issubclass"; "iter"; "len"; "list"; "locals"; "map"; "max";
    "memoryview"; "min"; "next"; "object"; "oct"; "open"; "ord"; "pow";
    "print"; "property"; "range"; "repr"; "reversed"; "round"; "set";
    "setattr"; "slice"; "sorted"; "staticmethod"; "str"; "sum"; "super";
    "tuple"; "type"; "vars"; "zip"; "__import__";
    "True"; "False"; "None"; "NotImplemented"; "Ellipsis"; "__debug__" ].

(** Every name a function body of the module can resolve: even granting
    that all top-level statements ran, these are the only candidates. *)
Definition module_globals : list string :=
  (imported_names ++ defined_names ++ builtin_names)%list.

Definition lookup_name (g : list string) (name : string) : result unit :=
  if mem_string name g then inr tt else inl (NameError name).

(** The five source lines of the class [PotentialInference], lines 166 to
    170.  The header ends with U+FF1B (bytes EF BC 9B in UTF-8). *)
Definition fullwidth_semicolon : string :=
  String (Ascii.ascii_of_nat 239) (String (Ascii.ascii_of_nat 188)
    (String (Ascii.ascii_of_nat 155) EmptyString)).

Definition line_166 : string :=
  "class PotentialInference(InferenceDomain)" ++ fullwidth_semicolon.
Definition line_167 : string :=
  "    def __init__(self, **config):".
Definition line_168 : string :=
  "        super(PotentialInference, self).__init__()".
Definition line_169 : string :=
  "        interior = Inference(geo.sample_interior(1e6, bounds={x: (-width / 2, width / 2), y: (-height / 2, height / 2)}, ['u','v','phi'])".
Definition line_170 : string :=
  "        self.add(interior, name=" ++ String (Ascii.ascii_of_nat 34)
    ("Inference" ++ String (Ascii.ascii_of_nat 34) ")").

Fixpoint last_char (s : string) : option ascii :=
  match s with
  | EmptyString => None
  | String c EmptyString => Some c
  | String _ rest => last_char rest
  end.

Definition is_quote (c : ascii) : bool :=
  Nat.eqb (Ascii.nat_of_ascii c) 39 || Nat.eqb (Ascii.nat_of_ascii c) 34.
Definition is_open (c : ascii) : bool :=
  Ascii.eqb c "(" || Ascii.eqb c "[" || Ascii.eqb c "{".
Definition is_close (c : ascii) : bool :=
  Ascii.eqb c ")" || Ascii.eqb c "]" || Ascii.eqb c "}".

(** Nesting level of brackets at the end of a line, as the tokenizer
    keeps it: brackets inside a string literal do not count. *)
Fixpoint bracket_depth (quote : option ascii) (depth : Z) (s : string) : Z :=
  match s with
  | EmptyString => depth
  | String c rest =>
      match quote with
      | Some q =>
          if Ascii.eqb c q then bracket_depth None depth rest
          else bracket_depth quote depth rest
      | None =>
          if is_quote c then bracket_depth (Some c) depth rest
          else if is_open c then bracket_depth None (depth + 1) rest
          else if is_close c then bracket_depth None (depth - 1) rest
          else bracket_depth None depth rest
      end
  end.

Inductive line_kind : Type := Header | Simple.

(** A compound-statement header must end with a colon; a simple statement
    must close every bracket it opens. *)
Definition check_line (lineno : nat) (k : line_kind) (text : string)
  : result unit :=
  match k with
  | Header =>
      match last_char text with
      | Some c => if Ascii.eqb c ":" then inr tt else inl (SyntaxError lineno)
      | None => inl (SyntaxError lineno)
      end
  | Simple =>
      if Z.eqb (bracket_depth None 0 text) 0 then inr tt
      else inl (SyntaxError lineno)
  end.

Fixpoint check_lines (ls : list (nat * line_kind * string)) : result unit :=
  match ls with
  | [] => inr tt
  | (n, k, t) :: rest => check_line n k t >> check_lines rest
  end.

Definition PotentialInference_source : list (nat * line_kind * string) :=
  [ (166%nat, Header, line_166); (167%nat, Header, line_167);
    (168%nat, Simple, line_168); (169%nat, Simple, line_169);
    (170%nat, Simple, line_170) ].

(** Loading the module parses the whole file first. *)
Definition load_module : result unit :=
  check_lines PotentialInference_source.

(** ** The inference domain and the solver binding *)

Inductive pyval : Type :=
| VStr (s : string)
| VInt (z : Z).

Definition config := gmap string pyval.

Record inference := mkInference
  { inf_region : geometry;
    inf_count : Q;
    inf_bounds : gmap string (Q * Q);
    inf_outputs : list string }.

Module PotentialInference.

(** Evaluating the class statement resolves the base class; [__init__]
    then resolves, in order, [super], the class's own name and
    [Inference]. *)
Definition init (g : list string) (cfg : config)
  : result (list (string * inference)) :=
  lookup_name g "InferenceDomain" >>
  lookup_name g "super" >>
  lookup_name g "PotentialInference" >>
  lookup_name g "Inference" >>
  inr [ ("Inference",
         mkInference (GRectangle geo) 1000000
           (<["y" := ((- height / 2)%Q, (height / 2)%Q)]>
            (<["x" := ((- width / 2)%Q, (width / 2)%Q)]> ∅))
           ["u"; "v"; "phi"]) ].

End PotentialInference.

Record arch_node := mkNode
  { node_name : string; inputs : list string; outputs : list string }.

Record solver := mkSolver
  { solver_equations : string * gmap string expr;
    nets : list arch_node }.

Module PotentialSolver.

Definition train_domain : string := "PotentialTrain".
Definition inference_domain : string := "PotentialInference".

(** Classes the instance belongs to; [super(C, self)] needs [C] among
    them. *)
Definition mro : list string := [ "PotentialSolver"; "Solver"; "object" ].

Definition super_init (g : list string) (cls : string) : result unit :=
  lookup_name g "super" >>
  lookup_name g cls >>
  if mem_string cls mro then inr tt
  else inl (TypeError "super(type, obj): obj must be an instance or subtype of type").

Definition flow_net : arch_node :=
  mkNode "flow_net" [ "x"; "y"; "alpha" ] [ "phi" ].

(** The statements of [__init__] that follow the [super] call: bind the
    equation system and declare the network. *)
Definition declare (g : list string) : result solver :=
  lookup_name g "Poisson_2D" >>
  inr (mkSolver (Poisson_2D.name, Poisson_2D.equations) [ flow_net ]).

(** [PotentialSolver.__init__(self, **config)] *)
Definition init (g : list string) (cfg : config) : result solver :=
  super_init g "LDCSolver" >> declare g.

(** [update_defaults]: [defaults.update({...})] assigns the five keys. *)
Definition update_defaults (defaults : gmap string pyval)
  : gmap string pyval :=
  <["nr_layer" := VInt 2]>
  (<["layer_size" := VInt 100]>
  (<["max_steps" := VInt 400000]>
  (<["decay_steps" := VInt 4000]>
  (<["network_dir" := VStr "./network_checkpoint_potential_flow_2d"]>
   defaults)))).

End PotentialSolver.



(** ** Notions used to state the properties *)

(** The value the rule draws at the [i]-th call after state [s]. *)
Definition draw_at (s : rng) (i : nat) : R :=
  (alpha_low + (alpha_high - alpha_low) * tape s (pos s + i))%R.

(** All parameter rows of all sub-domains sampled in one step agree. *)
Definition alpha_shared
    (step : list (string * option (list (list R)))) : Prop :=
  forall n1 n2 b1 b2 r1 r2,
    alpha_of n1 step = Some b1 -> alpha_of n2 step = Some b2 ->
    In r1 b1 -> In r2 b2 -> r1 = r2.

(** A generator whose unit draws are 1/2, 1/3, 1/4, ... *)
Definition harmonic_rng : rng :=
  {| tape := fun k => (/ (INR k + 2))%R; pos := 0 |}.

(** The end of the wake line that sits on the obstacle. *)
Definition trailing_edge : R * R := end_2 wake.

(** The target of [v] on the wake line equals the free-stream value at
    the trailing edge. *)
Definition wake_v_free_stream_at_trailing_edge (d : domain) : Prop :=
  forall b v,
    get "wakeLine" d = Some b -> outvar_sympy b !! "v" = Some v ->
    forall a,
      eval (at_point (fst trailing_edge) (snd trailing_edge) a) v =
      eval (at_point (fst trailing_edge) (snd trailing_edge) a)
           PotentialTrain.u_y.

(** The two interior sub-domains are declared with different sample
    densities. *)
Definition different_sample_densities (d : domain) : Prop :=
  forall b1 b2,
    get "Interior" d = Some b1 -> get "Neighbourhood" d = Some b2 ->
    batch_size_per_area b1 <> batch_size_per_area b2.

(** The field [a*x**2 + b*y**2] with symbolic constants [a] and [b]. *)
Definition quadratic_field : expr :=
  Add (Mul (Sym "a") (Pow x 2)) (Mul (Sym "b") (Pow y 2)).

(** A point of evaluation that also fixes the constants [a] and [b]. *)
Definition with_constants (a b : R) (rho : env) : env :=
  fun s =>
    if String.eqb s "a" then a
    else if String.eqb s "b" then b
    else rho s.

(** Expressions built without division, undefined functions or pending
    derivatives: they have a value at every point. *)
Fixpoint elementary (e : expr) : bool :=
  match e with
  | Num _ | Sym _ => true
  | Add a b | Mul a b => elementary a && elementary b
  | Pow a _ | Sin a | Cos a => elementary a
  | Div _ _ | App _ _ | Deriv _ _ => false
  end.

(** The point [rho] with the symbol [x] moved to [t]. *)
Definition upd (rho : env) (x : string) (t : R) : env :=
  fun s => if String.eqb x s then t else rho s.

(** A point is kept by a boundary sub-domain when it meets the
    sub-domain's criterion; without a criterion every point of the region
    is kept. *)
Definition selected (rho : env) (b : bc) : Prop :=
  match criteria b with
  | Some c => holds rho c
  | None => True
  end.

(** The closed box spanned by the two corners of a rectangle. *)
Definition in_rectangle (r : Rectangle) (px py : R) : Prop :=
  (Q2R (fst (point_1 r)) <= px <= Q2R (fst (point_2 r)))%R /\
  (Q2R (snd (point_1 r)) <= py <= Q2R (snd (point_2 r)))%R.

(** Symbols of a criterion. *)
Definition rel_occurs (s : string) (r : rel) : bool :=
  match r with
  | Eq a b | Ge a b => occurs s a || occurs s b
  end.

(** * Properties *)

(** ** Rational evaluation agrees with real evaluation *)

Section EvalQ.

Variable rho : envQ.

Let rhoR : env := fun s => Q2R (rho s).

Lemma Q2R_qpow (u : Q) (n : nat) : Q2R (qpow u n) = (Q2R u ^ n)%R.
Proof.
  induction n as [|n IH]; simpl.
  - unfold Q2R; simpl; lra.
  - rewrite Q2R_mult, IH. reflexivity.
Qed.

Lemma Q2R_zero_iff (v : Q) : Q2R v = 0%R <-> v == 0.
Proof.
  split; intros H.
  - apply eqR_Qeq. rewrite H. unfold Q2R; simpl; lra.
  - apply Qeq_eqR in H. rewrite H. unfold Q2R; simpl; lra.
Qed.

Lemma evalQ_sound (e : expr) (q : Q) :
  evalQ rho e = Some q -> eval rhoR e = Some (Q2R q).
Proof.
  revert q.
  induction e as [c|s|a IHa b IHb|a IHa b IHb|a IHa b IHb|a IHa n|a IHa|a IHa|f args|a IHa wrt];
    simpl; intros q Hq; try discriminate.
  - congruence.
  - unfold rhoR. congruence.
  - destruct (evalQ rho a) as [u|], (evalQ rho b) as [v|]; try discriminate.
    rewrite (IHa u eq_refl), (IHb v eq_refl). simpl in *.
    injection Hq as <-. now rewrite Q2R_plus.
  - destruct (evalQ rho a) as [u|], (evalQ rho b) as [v|]; try discriminate.
    rewrite (IHa u eq_refl), (IHb v eq_refl). simpl in *.
    injection Hq as <-. now rewrite Q2R_mult.
  - destruct (evalQ rho a) as [u|], (evalQ rho b) as [v|]; try discriminate.
    rewrite (IHa u eq_refl), (IHb v eq_refl).
    destruct (Qeq_bool v 0) eqn:Hv; [discriminate|].
    apply Qeq_bool_neq in Hv.
    destruct (Req_dec_T (Q2R v) 0) as [Hz|Hz].
    + apply Q2R_zero_iff in Hz. contradiction.
    + injection Hq as <-. now rewrite Q2R_div.
  - destruct (evalQ rho a) as [u|]; try discriminate.
    rewrite (IHa u eq_refl). simpl in *.
    injection Hq as <-. now rewrite Q2R_qpow.
Qed.

Lemma holdsb_sound (r : rel) (b : bool) :
  holdsb rho r = Some b -> (holds rhoR r <-> b = true).
Proof.
  destruct r as [e1 e2|e1 e2]; simpl;
    destruct (evalQ rho e1) as [u|] eqn:H1, (evalQ rho e2) as [v|] eqn:H2;
    try discriminate;
    rewrite (evalQ_sound _ _ H1), (evalQ_sound _ _ H2);
    intros [= <-].
  - rewrite Qeq_bool_iff. split; [apply eqR_Qeq | apply Qeq_eqR].
  - rewrite Qle_bool_iff. split.
    + intros H. apply Rle_Qle. lra.
    + intros H. apply Qle_Rle in H. lra.
Qed.

End EvalQ.

Lemma at_pointQ_real (px py : Q) (s : string) :
  Q2R (at_pointQ px py s) = at_point (Q2R px) (Q2R py) 0 s.
Proof.
  unfold at_pointQ, at_point.
  destruct (String.eqb s "x"); [reflexivity|].
  destruct (String.eqb s "y"); [reflexivity|].
  destruct (String.eqb s "alpha"); unfold Q2R; simpl; lra.
Qed.

Lemma eval_ext (rho1 rho2 : env) (e : expr) :
  (forall s, rho1 s = rho2 s) -> eval rho1 e = eval rho2 e.
Proof.
  intros H.
  induction e as [c|s|a IHa b IHb|a IHa b IHb|a IHa b IHb|a IHa n|a IHa|a IHa|f args|a IHa wrt];
    simpl; rewrite ?IHa, ?IHb, ?H; reflexivity.
Qed.

Lemma holds_ext (rho1 rho2 : env) (r : rel) :
  (forall s, rho1 s = rho2 s) -> holds rho1 r <-> holds rho2 r.
Proof.
  intros H. destruct r as [a b|a b]; simpl;
    now rewrite (eval_ext rho1 rho2 a H), (eval_ext rho1 rho2 b H).
Qed.

(** A criterion decided by computation at a rational point holds, or
    fails, at that point. *)
Lemma holdsb_at_point (px py : Q) (r : rel) (b : bool) :
  holdsb (at_pointQ px py) r = Some b ->
  (holds (at_point (Q2R px) (Q2R py) 0) r <-> b = true).
Proof.
  intros H. rewrite <- (holdsb_sound _ _ _ H).
  apply holds_ext. intros s. symmetry. apply at_pointQ_real.
Qed.

(** Constants of the module as real numbers. *)
Ltac q2r :=
  repeat match goal with
  | |- context [Q2R ?q] =>
      let n := eval vm_compute in (Qnum q) in
      let d := eval vm_compute in (Qden q) in
      change (Q2R q) with (IZR n * / IZR (Zpos d))%R
  end.

Lemma eval_Div (rho : env) (a b : expr) (u v : R) :
  eval rho a = Some u -> eval rho b = Some v -> v <> 0%R ->
  eval rho (Div a b) = Some (u / v)%R.
Proof.
  intros Ha Hb Hv. simpl. rewrite Ha, Hb.
  destruct (Req_dec_T v 0); [contradiction | reflexivity].
Qed.

Lemma Q2R_width : Q2R width = (3 / 5)%R.
Proof. q2r. lra. Qed.

Lemma Q2R_height : Q2R height = (3 / 5)%R.
Proof. q2r. lra. Qed.

Lemma Q2R_obstacle_length : Q2R obstacle_length = (1 / 10)%R.
Proof. q2r. lra. Qed.


(** ** Symbolic differentiation computes the derivative *)

Lemma upd_same (rho : env) (x : string) (e : expr) :
  eval (upd rho x (rho x)) e = eval rho e.
Proof.
  apply eval_ext. intros s. unfold upd.
  destruct (String.eqb_spec x s) as [->|_]; reflexivity.
Qed.

Lemma Q2R_of_nat (n : nat) : Q2R (inject_Z (Z.of_nat n)) = INR n.
Proof.
  rewrite INR_IZR_INZ. unfold Q2R, inject_Z; simpl. now rewrite Rinv_1, Rmult_1_r.
Qed.

Local Open Scope R_scope.

(** For an elementary expression, [diff e x] evaluates to the derivative
    in [x] of the value of [e]. *)
Lemma diff_sound (x : string) (e : expr) :
  elementary e = true ->
  forall rho : env,
  exists (f : R -> R) (d : R),
    (forall t, eval (upd rho x t) e = Some (f t)) /\
    eval rho (diff e x) = Some d /\
    derivable_pt_lim f (rho x) d.
Proof.
  induction e as [c|s|a IHa b IHb|a IHa b IHb|a IHa b IHb|a IHa n|a IHa|a IHa|g args|a IHa wrt];
    simpl; intros He rho; try discriminate.
  - exists (fct_cte (Q2R c)), 0. repeat split.
    + f_equal. unfold Q2R; simpl. lra.
    + apply derivable_pt_lim_const.
  - unfold upd. destruct (String.eqb_spec x s) as [->|Hne].
    + exists id, 1. repeat split.
      * simpl. f_equal. unfold Q2R; simpl. lra.
      * apply derivable_pt_lim_id.
    + exists (fct_cte (rho s)), 0. repeat split.
      * simpl. f_equal. unfold Q2R; simpl. lra.
      * apply derivable_pt_lim_const.
  - apply andb_prop in He as [Ha Hb].
    destruct (IHa Ha rho) as (fa & da & Hfa & Hda & Hla).
    destruct (IHb Hb rho) as (fb & db & Hfb & Hdb & Hlb).
    exists (plus_fct fa fb), (da + db). repeat split.
    + intros t. now rewrite Hfa, Hfb.
    + now rewrite Hda, Hdb.
    + now apply derivable_pt_lim_plus.
  - apply andb_prop in He as [Ha Hb].
    destruct (IHa Ha rho) as (fa & da & Hfa & Hda & Hla).
    destruct (IHb Hb rho) as (fb & db & Hfb & Hdb & Hlb).
    exists (mult_fct fa fb), (da * fb (rho x) + fa (rho x) * db). repeat split.
    + intros t. now rewrite Hfa, Hfb.
    + rewrite Hda, Hdb.
      rewrite <- (upd_same rho x a), <- (upd_same rho x b), Hfa, Hfb.
      reflexivity.
    + now apply derivable_pt_lim_mult.
  - destruct (IHa He rho) as (fa & da & Hfa & Hda & Hla).
    destruct n as [|m].
    + exists (fct_cte 1), 0. repeat split.
      * intros t. now rewrite Hfa.
      * simpl. f_equal. unfold Q2R; simpl. lra.
      * apply derivable_pt_lim_const.
    + exists (Ranalysis1.comp (fun u => u ^ S m) fa), (INR (S m) * fa (rho x) ^ m * da).
      repeat split.
      * intros t. now rewrite Hfa.
      * cbn [eval]. rewrite Hda, <- (upd_same rho x a), Hfa.
        cbn [option_map lift2]. now rewrite Q2R_of_nat.
      * apply derivable_pt_lim_comp; [exact Hla|].
        apply (derivable_pt_lim_pow (fa (rho x)) (S m)).
  - destruct (IHa He rho) as (fa & da & Hfa & Hda & Hla).
    exists (Ranalysis1.comp sin fa), (cos (fa (rho x)) * da). repeat split.
    + intros t. now rewrite Hfa.
    + now rewrite Hda, <- (upd_same rho x a), Hfa.
    + apply derivable_pt_lim_comp; [exact Hla | apply derivable_pt_lim_sin].
  - destruct (IHa He rho) as (fa & da & Hfa & Hda & Hla).
    exists (Ranalysis1.comp cos fa), (- sin (fa (rho x)) * da). repeat split.
    + intros t. now rewrite Hfa.
    + rewrite Hda, <- (upd_same rho x a), Hfa. simpl. f_equal.
      unfold Q2R; simpl. lra.
    + apply derivable_pt_lim_comp; [exact Hla | apply derivable_pt_lim_cos].
Qed.

Local Close Scope R_scope.

(** ** The rotated primitives *)

Lemma rotated_quarter_turn (p : point) :
  rotated (0 + PI / 2) p = ((- Q2R (snd p))%R, Q2R (fst p)).
Proof.
  unfold rotated. rewrite Rplus_0_l, cos_PI2, sin_PI2. f_equal; lra.
Qed.

Lemma obstacle_ends :
  end_1 obstacle = (0%R, 0%R) /\ end_2 obstacle = ((- (1 / 10))%R, 0%R).
Proof.
  unfold end_1, end_2, obstacle, rotate, new_Line; simpl.
  rewrite !rotated_quarter_turn; simpl. rewrite Q2R_obstacle_length.
  split; f_equal; q2r; lra.
Qed.

Lemma wake_ends :
  end_1 wake = ((3 / 10)%R, 0%R) /\ end_2 wake = (0%R, 0%R).
Proof.
  unfold end_1, end_2, wake, rotate, new_Line; simpl.
  rewrite !rotated_quarter_turn; simpl.
  split; f_equal; q2r; lra.
Qed.

(** ** The sub-domains by name *)

Lemma get_Inlet : get "Inlet" PotentialTrain.init = Some PotentialTrain.inletBC.
Proof. reflexivity. Qed.

Lemma get_Outlet : get "Outlet" PotentialTrain.init = Some PotentialTrain.outletBC.
Proof. reflexivity. Qed.

Lemma get_BottomWall :
  get "BottomWall" PotentialTrain.init = Some PotentialTrain.bottomWall.
Proof. reflexivity. Qed.

Lemma get_obstacleLine :
  get "obstacleLine" PotentialTrain.init = Some PotentialTrain.obstacleLine.
Proof. reflexivity. Qed.

Lemma get_wakeLine :
  get "wakeLine" PotentialTrain.init = Some PotentialTrain.wakeLine.
Proof. reflexivity. Qed.

Lemma get_Interior :
  get "Interior" PotentialTrain.init = Some PotentialTrain.interior.
Proof. reflexivity. Qed.

Lemma get_Neighbourhood :
  get "Neighbourhood" PotentialTrain.init = Some PotentialTrain.neighbourhood.
Proof. reflexivity. Qed.

Lemma subdomain_names :
  map fst PotentialTrain.init =
  [ "Inlet"; "Outlet"; "BottomWall"; "obstacleLine"; "wakeLine"; "Interior";
    "Neighbourhood" ].
Proof. reflexivity. Qed.

(** ** The equation system *)

(** C1.  The equations mapping of [Poisson_2D] has the entry [u] equal to
    the derivative of [phi] in [x], the entry [v] equal to the derivative
    of [phi] in [y] and the entry [Poisson_2D] equal to the sum of the two
    second derivatives, and nothing else; [phi] is the undefined function
    applied to exactly [x], [y], [alpha]. *)
Theorem C1_Poisson_2D_equations :
  Poisson_2D.phi = App "phi" ["x"; "y"; "alpha"] /\
  Poisson_2D.equations !! "u" = Some (Deriv Poisson_2D.phi ["x"]) /\
  Poisson_2D.equations !! "v" = Some (Deriv Poisson_2D.phi ["y"]) /\
  Poisson_2D.equations !! "Poisson_2D" =
    Some (Add (Deriv Poisson_2D.phi ["x"; "x"])
              (Deriv Poisson_2D.phi ["y"; "y"])) /\
  dom Poisson_2D.equations = ({["u"; "v"; "Poisson_2D"]} : gset string).
Proof.
  unfold Poisson_2D.equations.
  split; [reflexivity|].
  split.
  { rewrite lookup_insert_ne by discriminate.
    rewrite lookup_insert_ne by discriminate.
    now rewrite lookup_insert_eq. }
  split.
  { rewrite lookup_insert_ne by discriminate.
    now rewrite lookup_insert_eq. }
  split.
  { now rewrite lookup_insert_eq. }
  rewrite !dom_insert_L, dom_empty_L. set_solver.
Qed.

(** ** Boundary sub-domains *)

Lemma eval_u_x (px py a : R) :
  eval (at_point px py a) PotentialTrain.u_x = Some (10 * cos a)%R.
Proof.
  unfold PotentialTrain.u_x, alpha, at_point; simpl. f_equal. q2r. lra.
Qed.

Lemma eval_u_y (px py a : R) :
  eval (at_point px py a) PotentialTrain.u_y = Some (10 * sin a)%R.
Proof.
  unfold PotentialTrain.u_y, alpha, at_point; simpl. f_equal. q2r. lra.
Qed.

(** C7.  The Outlet sub-domain is sampled under the criterion
    [y/height + x/width >= 1/2], where [width = height = 6 * 0.10]; the
    corner [(width/2, height/2)] satisfies it and the corner
    [(-width/2, -height/2)] does not. *)
Theorem C7_outlet_criterion :
  let crit := Ge (Add (Div (Sym "y") (Num height)) (Div (Sym "x") (Num width)))
                 (Num (1 / 2)) in
  width = (6 * 0.10)%Q /\ height = (6 * 0.10)%Q /\
  criteria <$> get "Outlet" PotentialTrain.init = Some (Some crit) /\
  (forall a, holds (at_point (Q2R (width / 2)) (Q2R (height / 2)) a) crit) /\
  (forall a,
     ~ holds (at_point (Q2R (- width / 2)) (Q2R (- height / 2)) a) crit) /\
  holdsb (at_pointQ (width / 2) (height / 2)) crit = Some true /\
  holdsb (at_pointQ (- width / 2) (- height / 2)) crit = Some false.
Proof.
  assert (Hh : Q2R height <> 0%R) by (rewrite Q2R_height; lra).
  assert (Hw : Q2R width <> 0%R) by (rewrite Q2R_width; lra).
  intros crit.
  split; [reflexivity|]. split; [reflexivity|]. split; [reflexivity|].
  split; [|split; [|split; reflexivity]].
  - intros a. unfold crit, holds.
    cbn [eval at_point String.eqb Ascii.eqb Bool.eqb lift2].
    destruct (Req_dec_T (Q2R height) 0) as [?|_]; [contradiction|].
    destruct (Req_dec_T (Q2R width) 0) as [?|_]; [contradiction|].
    cbn [lift2]. q2r. lra.
  - intros a. unfold crit, holds.
    cbn [eval at_point String.eqb Ascii.eqb Bool.eqb lift2].
    destruct (Req_dec_T (Q2R height) 0) as [?|_]; [contradiction|].
    destruct (Req_dec_T (Q2R width) 0) as [?|_]; [contradiction|].
    cbn [lift2]. q2r. lra.
Qed.

(** C8.  The obstacleLine sub-domain has the targets [v = 0] and
    [u = 10 cos(alpha)], the x-component of the free stream, and the
    weight 100 on both terms. *)
Theorem C8_obstacle_targets :
  exists b,
    get "obstacleLine" PotentialTrain.init = Some b /\
    region b = GLine obstacle /\
    outvar_sympy b !! "v" = Some (Num 0) /\
    outvar_sympy b !! "u" = Some (Mul (Num 10) (Cos (Sym "alpha"))) /\
    outvar_sympy b !! "u" = Some PotentialTrain.u_x /\
    lambda_sympy b !! "lambda_u" = Some (WNum 100) /\
    lambda_sympy b !! "lambda_v" = Some (WNum 100) /\
    (forall px py a,
       eval (at_point px py a) PotentialTrain.u_x = Some (10 * cos a)%R).
Proof.
  exists PotentialTrain.obstacleLine.
  split; [apply get_obstacleLine|].
  split; [reflexivity|].
  split; [reflexivity|].
  split; [reflexivity|].
  split; [reflexivity|].
  split; [reflexivity|].
  split; [reflexivity|].
  apply eval_u_x.
Qed.

(** ** Ten degrees *)

Lemma sin_3a (t : R) : (sin (3 * t) = 3 * sin t - 4 * sin t ^ 3)%R.
Proof.
  replace (3 * t)%R with (2 * t + t)%R by lra.
  rewrite sin_plus, sin_2a, cos_2a_sin.
  pose proof (sin2_cos2 t) as H. unfold Rsqr in H.
  replace (2 * sin t * cos t * cos t)%R
    with (2 * sin t * (cos t * cos t))%R by ring.
  replace (cos t * cos t)%R with (1 - sin t * sin t)%R by lra.
  ring.
Qed.

Lemma sin_PI18_cubic :
  (3 * sin (PI / 18) - 4 * sin (PI / 18) ^ 3 = 1 / 2)%R.
Proof.
  rewrite <- sin_3a.
  replace (3 * (PI / 18))%R with (PI / 6)%R by lra.
  apply sin_PI6.
Qed.

Lemma sin_PI18_range : (0 < sin (PI / 18) < 1 / 2)%R.
Proof.
  pose proof PI_RGT_0 as Hpi.
  split.
  - apply sin_gt_0; lra.
  - rewrite <- sin_PI6. apply sin_increasing_1; lra.
Qed.

(** On [0, 1/2] the cubic [3 t - 4 t^3] is increasing: the difference of
    two of its values factors. *)
Lemma cubic_increasing (s t : R) :
  (0 <= s <= 1 / 2)%R -> (0 <= t <= 1 / 2)%R -> (s <= t)%R ->
  (3 * s - 4 * s ^ 3 <= 3 * t - 4 * t ^ 3)%R.
Proof.
  intros Hs Ht Hst.
  assert (H : (0 <= (t - s) * (3 - 4 * (t * t + t * s + s * s)))%R).
  { apply Rmult_le_pos; [lra | nra]. }
  replace (3 * t - 4 * t ^ 3)%R
    with (3 * s - 4 * s ^ 3 + (t - s) * (3 - 4 * (t * t + t * s + s * s)))%R
    by ring.
  lra.
Qed.

Lemma sin_PI18_bounds :
  (173648 / 1000000 < sin (PI / 18) < 173649 / 1000000)%R.
Proof.
  pose proof sin_PI18_cubic as Hc.
  pose proof sin_PI18_range as [H0 H1].
  set (s := sin (PI / 18)) in *.
  split.
  - destruct (Rlt_le_dec (173648 / 1000000) s) as [?|Hle]; [assumption|].
    exfalso.
    pose proof (cubic_increasing s (173648 / 1000000)) as H.
    assert (Hv : (3 * (173648 / 1000000) - 4 * (173648 / 1000000) ^ 3
                  < 1 / 2)%R) by lra.
    lra.
  - destruct (Rlt_le_dec s (173649 / 1000000)) as [?|Hle]; [assumption|].
    exfalso.
    pose proof (cubic_increasing (173649 / 1000000) s) as H.
    assert (Hv : (1 / 2
                  < 3 * (173649 / 1000000) - 4 * (173649 / 1000000) ^ 3)%R)
      by lra.
    lra.
Qed.

Lemma cos_PI18_bounds :
  (984807 / 1000000 < cos (PI / 18) < 984808 / 1000000)%R.
Proof.
  pose proof sin_PI18_bounds as [Hs0 Hs1].
  pose proof (sin2_cos2 (PI / 18)) as H. unfold Rsqr in H.
  pose proof PI_RGT_0 as Hpi.
  assert (Hc : (0 < cos (PI / 18))%R) by (apply cos_gt_0; lra).
  set (s := sin (PI / 18)) in *. set (c := cos (PI / 18)) in *.
  assert (Hs2lo : ((173648 / 1000000) * (173648 / 1000000) < s * s)%R) by nra.
  assert (Hs2hi : (s * s < (173649 / 1000000) * (173649 / 1000000))%R) by nra.
  split.
  - destruct (Rlt_le_dec (984807 / 1000000) c) as [?|Hle]; [assumption|].
    exfalso.
    assert (c * c <= (984807 / 1000000) * (984807 / 1000000))%R by nra.
    lra.
  - destruct (Rlt_le_dec c (984808 / 1000000)) as [?|Hle]; [assumption|].
    exfalso.
    assert ((984808 / 1000000) * (984808 / 1000000) <= c * c)%R by nra.
    lra.
Qed.

(** C6.  Inlet, Outlet and BottomWall all carry the targets
    [u = 10 cos(alpha)] and [v = 10 sin(alpha)]; at [alpha = 0] they are
    [(10, 0)] and at [alpha = pi/18] they are [(9.8481, 1.7365)] to four
    decimal places. *)
Theorem C6_far_field_targets :
  Forall (fun name =>
            exists b,
              get name PotentialTrain.init = Some b /\
              outvar_sympy b !! "u" = Some (Mul (Num 10) (Cos (Sym "alpha"))) /\
              outvar_sympy b !! "v" = Some (Mul (Num 10) (Sin (Sym "alpha"))))
         ["Inlet"; "Outlet"; "BottomWall"] /\
  (forall px py,
     eval (at_point px py 0) PotentialTrain.u_x = Some 10%R /\
     eval (at_point px py 0) PotentialTrain.u_y = Some 0%R) /\
  (forall px py,
     exists u v,
       eval (at_point px py (PI / 18)) PotentialTrain.u_x = Some u /\
       eval (at_point px py (PI / 18)) PotentialTrain.u_y = Some v /\
       (Rabs (u - 98481 / 10000) < 5 / 100000)%R /\
       (Rabs (v - 17365 / 10000) < 5 / 100000)%R).
Proof.
  split; [|split].
  - repeat constructor.
    + exists PotentialTrain.inletBC. now rewrite get_Inlet.
    + exists PotentialTrain.outletBC. now rewrite get_Outlet.
    + exists PotentialTrain.bottomWall. now rewrite get_BottomWall.
  - intros px py. rewrite eval_u_x, eval_u_y, cos_0, sin_0.
    split; f_equal; lra.
  - intros px py.
    exists (10 * cos (PI / 18))%R, (10 * sin (PI / 18))%R.
    rewrite eval_u_x, eval_u_y.
    pose proof sin_PI18_bounds. pose proof cos_PI18_bounds.
    repeat split; apply Rabs_def1; lra.
Qed.

(** ** Interior sub-domains *)

(** C5, as stated, fails on its last clause: both interior sub-domains are
    declared with [batch_size_per_area=2000]. *)
Lemma C5_same_density_counterexample :
  ~ different_sample_densities PotentialTrain.init.
Proof.
  intros H.
  apply (H PotentialTrain.interior PotentialTrain.neighbourhood);
    reflexivity.
Qed.

(** C5, amended.  The training domain has exactly two interior
    sub-domains, Interior and Neighbourhood; both force [Poisson_2D] to
    zero and weight it by the signed-distance function of the rectangle.
    Interior is sampled within the full bounds of the rectangle,
    Neighbourhood within the strictly smaller box
    [(-height/3, height/3) x (-height/8, height/8)], which contains the
    obstacle; both are declared with the same sample density 2000. *)
Theorem C5_interior_subdomains :
  List.filter (fun nb => is_interior (snd nb)) PotentialTrain.init =
    [ ("Interior", PotentialTrain.interior);
      ("Neighbourhood", PotentialTrain.neighbourhood) ] /\
  Forall (fun b =>
            region b = GRectangle rec /\
            outvar_sympy b = {[ "Poisson_2D" := Num 0 ]} /\
            lambda_sympy b = {[ "lambda_Poisson_2D" := sdf rec ]} /\
            batch_size_per_area b = 2000%Z)
         [ PotentialTrain.interior; PotentialTrain.neighbourhood ] /\
  (exists bi,
     bounds PotentialTrain.interior = Some bi /\
     bi !! "x" = Some (fst (point_1 rec), fst (point_2 rec)) /\
     bi !! "y" = Some (snd (point_1 rec), snd (point_2 rec)) /\
     bi !! "x" = Some ((- width / 2)%Q, (width / 2)%Q) /\
     bi !! "y" = Some ((- height / 2)%Q, (height / 2)%Q)) /\
  (exists bn,
     bounds PotentialTrain.neighbourhood = Some bn /\
     bn !! "x" = Some ((- height / 3)%Q, (height / 3)%Q) /\
     bn !! "y" = Some ((- height / 8)%Q, (height / 8)%Q)) /\
  (- width / 2 < - height / 3)%Q /\ (height / 3 < width / 2)%Q /\
  (- height / 2 < - height / 8)%Q /\ (height / 8 < height / 2)%Q /\
  Forall (fun p : R * R =>
            (Q2R (- height / 3) < fst p < Q2R (height / 3))%R /\
            (Q2R (- height / 8) < snd p < Q2R (height / 8))%R)
         [ end_1 obstacle; end_2 obstacle ].
Proof.
  split; [reflexivity|].
  split.
  { repeat constructor. }
  split.
  { eexists. split; [reflexivity|]. repeat split. }
  split.
  { eexists. split; [reflexivity|]. repeat split. }
  split; [reflexivity|]. split; [reflexivity|].
  split; [reflexivity|]. split; [reflexivity|].
  destruct obstacle_ends as [-> ->].
  repeat constructor; simpl; q2r; lra.
Qed.

(** ** Loading the module and constructing the solver *)

Lemma LDCSolver_unbound : mem_string "LDCSolver" module_globals = false.
Proof. reflexivity. Qed.

Lemma InferenceDomain_unbound :
  mem_string "InferenceDomain" module_globals = false.
Proof. reflexivity. Qed.

Lemma Inference_unbound : mem_string "Inference" module_globals = false.
Proof. reflexivity. Qed.

Lemma PotentialSolver_init_fails (cfg : config) :
  PotentialSolver.init module_globals cfg = inl (NameError "LDCSolver").
Proof. reflexivity. Qed.

(** C2.  The module does not load: line 166 ends with the fullwidth
    semicolon instead of a colon and line 169 leaves a bracket open, so
    the file is rejected as a syntax error.  Definition by definition,
    [LDCSolver], [InferenceDomain] and [Inference] are bound nowhere, so
    constructing [PotentialSolver] or [PotentialInference] raises a
    [NameError] for every configuration. *)
Theorem C2_module_does_not_load :
  last_char line_166 = last_char fullwidth_semicolon /\
  last_char line_166 <> Some ":"%char /\
  check_line 166 Header line_166 = inl (SyntaxError 166) /\
  bracket_depth None 0 line_169 = 1%Z /\
  check_line 169 Simple line_169 = inl (SyntaxError 169) /\
  load_module = inl (SyntaxError 166) /\
  mem_string "LDCSolver" module_globals = false /\
  mem_string "InferenceDomain" module_globals = false /\
  mem_string "Inference" module_globals = false /\
  (forall cfg : config,
     PotentialSolver.init module_globals cfg = inl (NameError "LDCSolver")) /\
  (forall cfg : config,
     PotentialInference.init module_globals cfg =
       inl (NameError "InferenceDomain")) /\
  (forall cfg : config,
     PotentialInference.init ("InferenceDomain" :: module_globals) cfg =
       inl (NameError "Inference")).
Proof.
  split; [reflexivity|].
  split; [discriminate|].
  split; [reflexivity|].
  split; [reflexivity|].
  split; [reflexivity|].
  split; [reflexivity|].
  split; [apply LDCSolver_unbound|].
  split; [apply InferenceDomain_unbound|].
  split; [apply Inference_unbound|].
  split; [apply PotentialSolver_init_fails|].
  split; intros cfg; reflexivity.
Qed.

(** The statements after the [super] call, taken alone, declare exactly
    one network, from [x], [y], [alpha] to [phi], next to the equations of
    [Poisson_2D]. *)
Lemma PotentialSolver_declare :
  PotentialSolver.declare module_globals =
    inr (mkSolver ("Poisson_2D", Poisson_2D.equations)
                  [ mkNode "flow_net" ["x"; "y"; "alpha"] ["phi"] ]).
Proof. reflexivity. Qed.

(** They are never reached: the [super] call fails first. *)
Lemma PotentialSolver_super_fails :
  PotentialSolver.super_init module_globals "LDCSolver" =
    inl (NameError "LDCSolver").
Proof. reflexivity. Qed.

(** Binding the name is not enough: a class outside the instance's
    classes makes [super] raise a [TypeError]. *)
Lemma PotentialSolver_super_foreign_class :
  exists msg,
    PotentialSolver.super_init ("LDCSolver" :: module_globals) "LDCSolver" =
      inl (TypeError msg).
Proof. eexists. reflexivity. Qed.

Lemma PotentialSolver_class_attributes :
  PotentialSolver.train_domain = "PotentialTrain" /\
  PotentialSolver.inference_domain = "PotentialInference".
Proof. split; reflexivity. Qed.

Lemma update_defaults_sets (defaults : gmap string pyval) :
  let d := PotentialSolver.update_defaults defaults in
  d !! "network_dir" = Some (VStr "./network_checkpoint_potential_flow_2d") /\
  d !! "decay_steps" = Some (VInt 4000) /\
  d !! "max_steps" = Some (VInt 400000) /\
  d !! "layer_size" = Some (VInt 100) /\
  d !! "nr_layer" = Some (VInt 2).
Proof.
  unfold PotentialSolver.update_defaults; cbv zeta.
  repeat split;
    repeat (first [ rewrite lookup_insert_eq; reflexivity
                  | rewrite lookup_insert_ne by discriminate ]).
Qed.

Lemma update_defaults_other (defaults : gmap string pyval) (k : string) :
  k ∉ [ "network_dir"; "decay_steps"; "max_steps"; "layer_size"; "nr_layer" ] ->
  PotentialSolver.update_defaults defaults !! k = defaults !! k.
Proof.
  intros Hk. unfold PotentialSolver.update_defaults.
  rewrite !lookup_insert_ne; [reflexivity| | | | |];
    intros <-; apply Hk; set_solver.
Qed.

(** C10.  Constructing the solver never reaches the declaration of the
    network: for every configuration [__init__] stops at
    [super(LDCSolver, self)] with a [NameError], before [self.equations]
    and [self.nets] are assigned. *)
Theorem C10_solver_init_raises (cfg : config) :
  PotentialSolver.init module_globals cfg = inl (NameError "LDCSolver") /\
  forall s : solver, PotentialSolver.init module_globals cfg <> inr s.
Proof.
  rewrite PotentialSolver_init_fails. split; [reflexivity | discriminate].
Qed.

(** ** The harmonic-function check *)

Lemma doit_elementary (e : expr) : elementary e = true -> doit e = e.
Proof.
  induction e as [c|s|a IHa b IHb|a IHa b IHb|a IHa b IHb|a IHa n|a IHa|a IHa|g args|a IHa wrt];
    simpl; intros He; try discriminate; try reflexivity;
    try (apply andb_prop in He as [Ha Hb]; now rewrite IHa, IHb);
    now rewrite IHa.
Qed.

(** Substituting an elementary field for [phi] in the residual and
    carrying out the derivatives gives the symbolic Laplacian of the
    field. *)
Lemma residual_on_field (body : expr) :
  elementary body = true ->
  (Poisson_2D.equations !! "Poisson_2D") ≫=
    (fun r => Some (doit (subs "phi" ["x"; "y"; "alpha"] body r)))
  = Some (Add (diff (diff body "x") "x") (diff (diff body "y") "y")).
Proof.
  intros Hb. unfold Poisson_2D.equations. rewrite lookup_insert_eq.
  simpl. now rewrite (doit_elementary body Hb).
Qed.

Lemma residual_on_quadratic_field (rho : env) :
  (Poisson_2D.equations !! "Poisson_2D") ≫=
    (fun r => eval rho (doit (subs "phi" ["x"; "y"; "alpha"] quadratic_field r)))
  = Some (2 * rho "a" + 2 * rho "b")%R.
Proof.
  unfold Poisson_2D.equations. rewrite lookup_insert_eq.
  simpl. f_equal. q2r. rewrite Rinv_1. ring.
Qed.

(** C9.  Substituting [phi = a*x**2 + b*y**2] with [a = -b] into the
    [Poisson_2D] residual and carrying out the derivatives gives an
    expression whose value is zero at every point. *)
Theorem C9_harmonic_check (rho : env) :
  rho "a" = (- rho "b")%R ->
  (Poisson_2D.equations !! "Poisson_2D") ≫=
    (fun r => eval rho (doit (subs "phi" ["x"; "y"; "alpha"] quadratic_field r)))
  = Some 0%R.
Proof.
  intros Hab. rewrite residual_on_quadratic_field. f_equal. lra.
Qed.

Lemma C9_harmonic_check_witness :
  with_constants 7 (-7) (at_point 3 5 0) "a" =
    (- with_constants 7 (-7) (at_point 3 5 0) "b")%R /\
  (Poisson_2D.equations !! "Poisson_2D") ≫=
    (fun r => eval (with_constants 7 (-7) (at_point 3 5 0))
                (doit (subs "phi" ["x"; "y"; "alpha"] quadratic_field r)))
  = Some 0%R.
Proof.
  assert (H : with_constants 7 (-7) (at_point 3 5 0) "a" =
              (- with_constants 7 (-7) (at_point 3 5 0) "b")%R).
  { unfold with_constants; simpl. lra. }
  split; [exact H | apply (C9_harmonic_check _ H)].
Defined.

(** ** The wake line *)

Lemma eval_wake_v (px py a : R) :
  eval (at_point px py a) (Mul PotentialTrain.u_y (PotentialTrain.l x)) =
  Some (10 * sin a * (px / (3 / 10)))%R.
Proof.
  assert (Hd : eval (at_point px py a) (PotentialTrain.l x) =
               Some (px / Q2R (3 * obstacle_length))%R).
  { unfold PotentialTrain.l. apply eval_Div; [reflexivity | reflexivity |].
    q2r. lra. }
  change (eval (at_point px py a) (Mul PotentialTrain.u_y (PotentialTrain.l x)))
    with (lift2 Rmult (eval (at_point px py a) PotentialTrain.u_y)
                      (eval (at_point px py a) (PotentialTrain.l x))).
  rewrite eval_u_y, Hd. simpl. f_equal. q2r. f_equal. f_equal. lra.
Qed.

Lemma trailing_edge_origin :
  trailing_edge = (0%R, 0%R) /\ trailing_edge = end_1 obstacle.
Proof.
  unfold trailing_edge.
  destruct wake_ends as [_ ->]. destruct obstacle_ends as [-> _].
  split; reflexivity.
Qed.

(** C4, as stated, fails: at the trailing edge the target of [v] is 0 for
    every angle, while the free-stream value at [alpha = pi/2] is 10. *)
Lemma C4_trailing_edge_counterexample :
  ~ wake_v_free_stream_at_trailing_edge PotentialTrain.init.
Proof.
  intros H.
  specialize (H PotentialTrain.wakeLine
                (Mul PotentialTrain.u_y (PotentialTrain.l x))
                get_wakeLine eq_refl (PI / 2)%R).
  destruct trailing_edge_origin as [-> _]. simpl fst in H. simpl snd in H.
  rewrite eval_wake_v, eval_u_y, sin_PI2 in H.
  injection H as H. lra.
Qed.

(** C4, amended.  On the wakeLine sub-domain the target of [v] is
    [10 sin(alpha) * x / (3 * obstacle_length)], linear in the position
    [x] along the wake line; it is 0 at the trailing edge of the obstacle
    ([x = 0]) and reaches the free-stream value [10 sin(alpha)] at the
    other end of the line, [x = 3 * obstacle_length = width / 2], which
    lies on the wall opposite the inlet.  The [u] and [v] terms both have
    weight 100. *)
Theorem C4_wake_targets :
  (exists b,
     get "wakeLine" PotentialTrain.init = Some b /\
     region b = GLine wake /\
     outvar_sympy b !! "u" = Some PotentialTrain.u_x /\
     outvar_sympy b !! "v" =
       Some (Mul (Mul (Num 10) (Sin (Sym "alpha")))
                 (Div (Sym "x") (Num (3 * obstacle_length)))) /\
     lambda_sympy b !! "lambda_u" = Some (WNum 100) /\
     lambda_sympy b !! "lambda_v" = Some (WNum 100)) /\
  end_2 wake = (0%R, 0%R) /\ end_1 obstacle = (0%R, 0%R) /\
  end_1 wake = (Q2R (3 * obstacle_length), 0%R) /\
  end_1 wake = (Q2R (width / 2), 0%R) /\
  criteria PotentialTrain.inletBC = Some (Eq (Sym "x") (Num (- width / 2))) /\
  (forall px py a,
     eval (at_point px py a) (Mul PotentialTrain.u_y (PotentialTrain.l x)) =
       Some (10 * sin a * (px / (3 / 10)))%R) /\
  (forall py a,
     eval (at_point 0 py a) (Mul PotentialTrain.u_y (PotentialTrain.l x)) =
       Some 0%R) /\
  (forall py a,
     eval (at_point (Q2R (3 * obstacle_length)) py a)
          (Mul PotentialTrain.u_y (PotentialTrain.l x)) =
     eval (at_point (Q2R (3 * obstacle_length)) py a) PotentialTrain.u_y).
Proof.
  split.
  { exists PotentialTrain.wakeLine.
    split; [apply get_wakeLine|]. repeat split. }
  destruct wake_ends as [Hw1 Hw2]. destruct obstacle_ends as [Ho1 _].
  split; [exact Hw2|]. split; [exact Ho1|].
  split; [rewrite Hw1; f_equal; q2r; lra|].
  split; [rewrite Hw1; f_equal; q2r; lra|].
  split; [reflexivity|].
  split; [apply eval_wake_v|].
  split.
  - intros py a. rewrite eval_wake_v. f_equal. lra.
  - intros py a. rewrite eval_wake_v, eval_u_y. f_equal. q2r. lra.
Qed.

(** ** The parameter sampling rule *)

Lemma alpha_rule_unfold (n : nat) (s : rng) :
  alpha_rule n s =
  (repeat [draw_at s 0] n, {| tape := tape s; pos := S (pos s) |}).
Proof.
  unfold alpha_rule, uniform, random_sample, draw_at, np_full; simpl.
  now rewrite Nat.add_0_r.
Qed.

Lemma alpha_range : (alpha_low < alpha_high)%R.
Proof. unfold alpha_low, alpha_high. pose proof PI_RGT_0. lra. Qed.

Lemma draw_at_range (s : rng) (i : nat) :
  valid_rng s -> (alpha_low <= draw_at s i < alpha_high)%R.
Proof.
  intros Hs. unfold draw_at.
  pose proof alpha_range as Hr. specialize (Hs (pos s + i)%nat).
  split; nra.
Qed.

Lemma draw_at_shift (s : rng) (i : nat) :
  draw_at {| tape := tape s; pos := S (pos s) |} i = draw_at s (S i).
Proof.
  unfold draw_at; simpl. now rewrite Nat.add_succ_r.
Qed.

(** Sub-domains that all carry the rule take successive draws. *)
Lemma train_step_draws (sizes : string -> nat) (d : domain) (s : rng) :
  Forall (fun nb => param_ranges (snd nb) !! "alpha" = Some alpha_rule) d ->
  train_step sizes d s =
  (imap (fun i nb => (fst nb, Some (repeat [draw_at s i] (sizes (fst nb))))) d,
   {| tape := tape s; pos := pos s + length d |}).
Proof.
  intros Hd. revert s.
  induction Hd as [|[name b] rest Hb _ IH]; intros s.
  - simpl. rewrite Nat.add_0_r. now destruct s.
  - simpl in Hb. cbn [train_step]. unfold sample_alpha. rewrite Hb.
    rewrite alpha_rule_unfold, IH. cbn [imap fst snd length tape pos].
    f_equal.
    + f_equal. apply imap_ext. intros i [n' b'] _. simpl.
      now rewrite draw_at_shift.
    + f_equal. lia.
Qed.

Lemma PotentialTrain_rules :
  Forall (fun nb => param_ranges (snd nb) !! "alpha" = Some alpha_rule)
         PotentialTrain.init.
Proof. repeat constructor. Qed.

Lemma harmonic_rng_valid : valid_rng harmonic_rng.
Proof.
  intros k. simpl. pose proof (pos_INR k) as Hk.
  assert (H2 : (1 < INR k + 2)%R) by lra.
  split.
  - left. apply Rinv_0_lt_compat. lra.
  - rewrite <- Rinv_1. apply Rinv_lt_contravar; lra.
Qed.

(** C3, as stated, fails on its second part: with unit draws 1/2 and 1/3
    the Inlet and the Outlet batches of one step hold different values. *)
Lemma C3_shared_alpha_counterexample :
  valid_rng harmonic_rng /\
  ~ alpha_shared (fst (train_step (fun _ => 1%nat) PotentialTrain.init
                                  harmonic_rng)).
Proof.
  split; [apply harmonic_rng_valid|].
  rewrite (train_step_draws _ _ _ PotentialTrain_rules).
  intros H.
  specialize (H "Inlet" "Outlet" [[draw_at harmonic_rng 0]]
                [[draw_at harmonic_rng 1]] [draw_at harmonic_rng 0]
                [draw_at harmonic_rng 1] eq_refl eq_refl
                (or_introl eq_refl) (or_introl eq_refl)).
  injection H as H. revert H.
  unfold draw_at, harmonic_rng; simpl.
  pose proof alpha_range. intros H'. 
  assert (/ (0 + 2) = 1 / 2)%R as E1 by lra.
  assert (/ (1 + 2) = 1 / 3)%R as E2 by lra.
  rewrite E1, E2 in H'. lra.
Qed.

(** C3, amended.  For every batch size [n] the rule for [alpha] returns
    [n] rows that all hold one value [v = low + (high - low) * u], where
    [u] is the unit draw of that call and [low = -pi*10/180],
    [high = pi*10/180], so [v] lies in the interval of plus or minus ten
    degrees.  Every sub-domain of the training domain carries this rule,
    and each call of the rule draws anew: in one step the sub-domains
    receive successive draws, each constant within its own batch. *)
Theorem C3_alpha_sampling (n : nat) (s : rng) :
  valid_rng s ->
  fixed_param_range !! "alpha" = Some alpha_rule /\
  (exists v,
     fst (alpha_rule n s) = repeat [v] n /\
     length (fst (alpha_rule n s)) = n /\
     v = (- PI * 10 / 180
          + (PI * 10 / 180 - - PI * 10 / 180) * tape s (pos s))%R /\
     (- (PI * 10 / 180) <= v <= PI * 10 / 180)%R) /\
  Forall (fun nb => param_ranges (snd nb) = fixed_param_range)
         PotentialTrain.init /\
  forall sizes : string -> nat,
    fst (train_step sizes PotentialTrain.init s) =
    [ ("Inlet", Some (repeat [draw_at s 0] (sizes "Inlet")));
      ("Outlet", Some (repeat [draw_at s 1] (sizes "Outlet")));
      ("BottomWall", Some (repeat [draw_at s 2] (sizes "BottomWall")));
      ("obstacleLine", Some (repeat [draw_at s 3] (sizes "obstacleLine")));
      ("wakeLine", Some (repeat [draw_at s 4] (sizes "wakeLine")));
      ("Interior", Some (repeat [draw_at s 5] (sizes "Interior")));
      ("Neighbourhood", Some (repeat [draw_at s 6] (sizes "Neighbourhood"))) ].
Proof.
  intros Hs.
  split; [reflexivity|].
  split.
  { exists (draw_at s 0). rewrite alpha_rule_unfold. cbn [fst].
    split; [reflexivity|].
    split; [apply repeat_length|].
    split.
    - unfold draw_at, alpha_low, alpha_high. now rewrite Nat.add_0_r.
    - pose proof (draw_at_range s 0 Hs) as Hr.
      unfold alpha_low, alpha_high in Hr. lra. }
  split; [repeat constructor|].
  intros sizes.
  rewrite (train_step_draws _ _ _ PotentialTrain_rules). reflexivity.
Qed.

Lemma C3_alpha_sampling_witness :
  valid_rng harmonic_rng /\
  exists v,
    fst (alpha_rule 3 harmonic_rng) = [[v]; [v]; [v]] /\
    (- (PI * 10 / 180) <= v <= PI * 10 / 180)%R.
Proof.
  split; [apply harmonic_rng_valid|].
  destruct (C3_alpha_sampling 3 harmonic_rng harmonic_rng_valid)
    as (_ & (v & Hv & _ & _ & Hr) & _).
  exists v. split; [exact Hv | exact Hr].
Defined.

(** * Further properties of the module *)

(** ** [get_angle] and the free stream *)

Local Open Scope R_scope.

(** X1.  [get_angle] returns a vector whose length is the magnitude: the
    squares of its components sum to the square of [magnitude]; at angle
    0 it is [(magnitude, 0)] and at a quarter turn [(0, magnitude)]. *)
Theorem get_angle_norm (theta magnitude : R) :
  fst (get_angle theta magnitude) * fst (get_angle theta magnitude) +
  snd (get_angle theta magnitude) * snd (get_angle theta magnitude) =
  magnitude * magnitude /\
  get_angle 0 magnitude = (magnitude, 0) /\
  get_angle (PI / 2) magnitude = (0, magnitude).
Proof.
  unfold get_angle; simpl.
  pose proof (sin2_cos2 theta) as H. unfold Rsqr in H.
  split; [nra|].
  rewrite cos_0, sin_0, cos_PI2, sin_PI2.
  split; f_equal; lra.
Qed.

(** X2.  At every point and every angle the far-field targets
    [(u_x, u_y)] are the vector [get_angle(alpha, 10)]: the prescribed
    speed is 10 whatever the angle of attack. *)
Theorem far_field_speed (px py a : R) :
  exists u v,
    eval (at_point px py a) PotentialTrain.u_x = Some u /\
    eval (at_point px py a) PotentialTrain.u_y = Some v /\
    (u, v) = get_angle a 10 /\
    u * u + v * v = 100.
Proof.
  exists (10 * cos a), (10 * sin a).
  rewrite eval_u_x, eval_u_y.
  pose proof (sin2_cos2 a) as H. unfold Rsqr in H.
  repeat split; [unfold get_angle; f_equal; lra | nra].
Qed.

Lemma small_angle_bounds (a : R) :
  - (PI / 18) <= a <= PI / 18 ->
  cos (PI / 18) <= cos a /\ Rabs (sin a) <= sin (PI / 18).
Proof.
  intros [Hlo Hhi]. pose proof PI_RGT_0 as Hpi.
  destruct (Rle_dec 0 a) as [Hp|Hn].
  - split.
    + apply cos_decr_1; lra.
    + rewrite Rabs_pos_eq by (apply sin_ge_0; lra).
      apply sin_incr_1; lra.
  - apply Rnot_le_lt in Hn. split.
    + rewrite <- (cos_neg a). apply cos_decr_1; lra.
    + rewrite <- (Ropp_involutive a), sin_neg, Rabs_Ropp.
      rewrite Rabs_pos_eq by (apply sin_ge_0; lra).
      apply sin_incr_1; lra.
Qed.

(** X3.  Whatever the generator draws, every angle the sampling rule
    hands out keeps the far-field targets close to the horizontal free
    stream: [u] stays between [10 cos(pi/18) > 9.848] and 10, and the
    size of [v] stays below [10 sin(pi/18) < 1.7365]. *)
Theorem sampled_alpha_targets (n : nat) (s : rng) (px py : R) :
  valid_rng s ->
  Forall (Forall (fun a =>
            exists u v,
              eval (at_point px py a) PotentialTrain.u_x = Some u /\
              eval (at_point px py a) PotentialTrain.u_y = Some v /\
              9848 / 1000 < u <= 10 /\
              Rabs v < 17365 / 10000))
         (fst (alpha_rule n s)).
Proof.
  intros Hs. rewrite alpha_rule_unfold. cbn [fst].
  apply Forall_forall. intros row Hrow.
  apply list_elem_of_In, repeat_spec in Hrow. subst row.
  repeat constructor.
  exists (10 * cos (draw_at s 0)), (10 * sin (draw_at s 0)).
  rewrite eval_u_x, eval_u_y.
  pose proof (draw_at_range s 0 Hs) as Hr.
  unfold alpha_low, alpha_high in Hr.
  destruct (small_angle_bounds (draw_at s 0)) as [Hc Hsn]; [lra|].
  pose proof cos_PI18_bounds. pose proof sin_PI18_bounds.
  pose proof (COS_bound (draw_at s 0)) as [_ Hc1].
  split; [reflexivity|]. split; [reflexivity|].
  split; [lra|].
  rewrite Rabs_mult, (Rabs_pos_eq 10) by lra. lra.
Qed.

Lemma sampled_alpha_targets_witness :
  valid_rng harmonic_rng /\
  Forall (Forall (fun a =>
            exists u v,
              eval (at_point 0 0 a) PotentialTrain.u_x = Some u /\
              eval (at_point 0 0 a) PotentialTrain.u_y = Some v /\
              9848 / 1000 < u <= 10 /\
              Rabs v < 17365 / 10000))
         (fst (alpha_rule 2%nat harmonic_rng)).
Proof.
  split; [apply harmonic_rng_valid|].
  apply (sampled_alpha_targets 2%nat harmonic_rng 0 0 harmonic_rng_valid).
Defined.

Local Close Scope R_scope.

(** ** Which boundary points the far-field sub-domains keep *)

Local Open Scope R_scope.

Lemma selected_inlet_iff (px py a : R) :
  selected (at_point px py a) PotentialTrain.inletBC <->
  px = Q2R (- width / 2).
Proof. reflexivity. Qed.

Lemma selected_bottom_iff (px py a : R) :
  selected (at_point px py a) PotentialTrain.bottomWall <->
  py = Q2R (- height / 2).
Proof. reflexivity. Qed.

Lemma selected_outlet_iff (px py a : R) :
  selected (at_point px py a) PotentialTrain.outletBC <->
  Q2R (width / 2) <= px + py.
Proof.
  change (selected (at_point px py a) PotentialTrain.outletBC)
    with (match lift2 Rplus (eval (at_point px py a) (Div y (Num height)))
                            (eval (at_point px py a) (Div x (Num width))),
                eval (at_point px py a) (Num (1 / 2)) with
          | Some u, Some v => u >= v
          | _, _ => False
          end).
  assert (Hy : eval (at_point px py a) (Div y (Num height)) =
               Some (py / Q2R height)).
  { apply eval_Div; [reflexivity | reflexivity |]. rewrite Q2R_height. lra. }
  assert (Hx : eval (at_point px py a) (Div x (Num width)) =
               Some (px / Q2R width)).
  { apply eval_Div; [reflexivity | reflexivity |]. rewrite Q2R_width. lra. }
  rewrite Hy, Hx. cbn [lift2 eval].
  rewrite Q2R_height, Q2R_width. q2r. split; intros H; lra.
Qed.

(** X4.  Because [width = height], the Outlet criterion keeps exactly the
    points with [x + y >= width / 2].  On the right wall these are the
    points with [y >= 0] and on the top wall the points with [x >= 0]: the
    Outlet is the upper half of the right wall and the right half of the
    top wall. *)
Theorem outlet_selects_corner_region (px py a : R) :
  (selected (at_point px py a) PotentialTrain.outletBC <->
   Q2R (width / 2) <= px + py) /\
  (selected (at_point (Q2R (width / 2)) py a) PotentialTrain.outletBC <->
   0 <= py) /\
  (selected (at_point px (Q2R (height / 2)) a) PotentialTrain.outletBC <->
   0 <= px).
Proof.
  rewrite !selected_outlet_iff. q2r. repeat split; intros H; lra.
Qed.

(** X5.  Inside the rectangle the Outlet never overlaps the Inlet or the
    BottomWall: a point the Outlet keeps has [x >= 0] and [y >= 0], so it
    lies neither on the left wall nor on the bottom wall. *)
Theorem outlet_disjoint_from_inlet_and_bottom (px py a : R) :
  in_rectangle rec px py ->
  selected (at_point px py a) PotentialTrain.outletBC ->
  0 <= px /\ 0 <= py /\
  ~ selected (at_point px py a) PotentialTrain.inletBC /\
  ~ selected (at_point px py a) PotentialTrain.bottomWall.
Proof.
  intros [[_ Hx] [_ Hy]] Ho.
  apply selected_outlet_iff in Ho.
  rewrite selected_inlet_iff, selected_bottom_iff.
  revert Hx Hy Ho. unfold rec; cbn [fst snd point_1 point_2]. q2r.
  intros Hx Hy Ho. repeat split; lra.
Qed.

Lemma outlet_disjoint_from_inlet_and_bottom_witness :
  in_rectangle rec (Q2R (width / 2)) (Q2R (height / 2)) /\
  selected (at_point (Q2R (width / 2)) (Q2R (height / 2)) 0)
           PotentialTrain.outletBC /\
  ~ selected (at_point (Q2R (width / 2)) (Q2R (height / 2)) 0)
             PotentialTrain.inletBC.
Proof.
  assert (Hin : in_rectangle rec (Q2R (width / 2)) (Q2R (height / 2))).
  { unfold in_rectangle, rec; cbn [fst snd point_1 point_2]. q2r. lra. }
  assert (Hout : selected (at_point (Q2R (width / 2)) (Q2R (height / 2)) 0)
                          PotentialTrain.outletBC).
  { apply selected_outlet_iff. q2r. lra. }
  split; [exact Hin|]. split; [exact Hout|].
  apply (outlet_disjoint_from_inlet_and_bottom _ _ 0 Hin Hout).
Defined.

(** X6.  Part of the outer boundary gets no far-field condition at all:
    the lower half of the right wall and the left half of the top wall
    (corners excluded) are kept by none of Inlet, Outlet and
    BottomWall. *)
Theorem boundary_without_condition (px py a : R) :
  (px = Q2R (width / 2) /\ Q2R (- height / 2) < py < 0) \/
  (py = Q2R (height / 2) /\ Q2R (- width / 2) < px < 0) ->
  in_rectangle rec px py /\
  ~ selected (at_point px py a) PotentialTrain.inletBC /\
  ~ selected (at_point px py a) PotentialTrain.outletBC /\
  ~ selected (at_point px py a) PotentialTrain.bottomWall.
Proof.
  rewrite selected_inlet_iff, selected_bottom_iff, selected_outlet_iff.
  unfold in_rectangle, rec; cbn [fst snd point_1 point_2]. q2r.
  intros [[-> H]|[-> H]]; repeat split; lra.
Qed.

Lemma boundary_without_condition_witness :
  (Q2R (width / 2) = Q2R (width / 2) /\
   Q2R (- height / 2) < - (1 / 10) < 0) /\
  ~ selected (at_point (Q2R (width / 2)) (- (1 / 10)) 0)
             PotentialTrain.outletBC.
Proof.
  assert (H : Q2R (width / 2) = Q2R (width / 2) /\
              Q2R (- height / 2) < - (1 / 10) < 0).
  { split; [reflexivity|]. q2r. lra. }
  split; [exact H|].
  apply (boundary_without_condition _ _ 0 (or_introl H)).
Defined.

(** X7.  The Inlet and the BottomWall share exactly one point, the lower
    left corner of the rectangle. *)
Theorem inlet_meets_bottom_at_corner (px py a : R) :
  selected (at_point px py a) PotentialTrain.inletBC /\
  selected (at_point px py a) PotentialTrain.bottomWall <->
  (px, py) = (Q2R (fst (point_1 rec)), Q2R (snd (point_1 rec))).
Proof.
  rewrite selected_inlet_iff, selected_bottom_iff.
  unfold rec; cbn [fst snd point_1].
  split.
  - intros [-> ->]. reflexivity.
  - intros [= -> ->]. split; reflexivity.
Qed.

(** ** Targets along the obstacle and the wake *)

Lemma obstacle_outvars :
  outvar_sympy PotentialTrain.obstacleLine !! "u" = Some PotentialTrain.u_x /\
  outvar_sympy PotentialTrain.obstacleLine !! "v" = Some (Num 0).
Proof. split; reflexivity. Qed.

Lemma wake_outvars :
  outvar_sympy PotentialTrain.wakeLine !! "u" = Some PotentialTrain.u_x /\
  outvar_sympy PotentialTrain.wakeLine !! "v" =
    Some (Mul PotentialTrain.u_y (PotentialTrain.l x)).
Proof. split; reflexivity. Qed.

Lemma outlet_outvars :
  outvar_sympy PotentialTrain.outletBC !! "u" = Some PotentialTrain.u_x /\
  outvar_sympy PotentialTrain.outletBC !! "v" = Some PotentialTrain.u_y.
Proof. split; reflexivity. Qed.

(** X8.  Where the obstacle and the wake line meet, their targets agree
    for every angle of attack: both ask for [u = 10 cos(alpha)] and
    [v = 0], so the prescribed velocity is continuous across the trailing
    edge. *)
Theorem trailing_edge_targets_agree (a : R) :
  let rho := at_point (fst trailing_edge) (snd trailing_edge) a in
  trailing_edge = end_1 obstacle /\
  trailing_edge = end_2 wake /\
  (outvar_sympy PotentialTrain.obstacleLine !! "u") ≫= eval rho
    = Some (10 * cos a) /\
  (outvar_sympy PotentialTrain.wakeLine !! "u") ≫= eval rho
    = Some (10 * cos a) /\
  (outvar_sympy PotentialTrain.obstacleLine !! "v") ≫= eval rho = Some 0 /\
  (outvar_sympy PotentialTrain.wakeLine !! "v") ≫= eval rho = Some 0.
Proof.
  destruct trailing_edge_origin as [Hte _]. rewrite Hte.
  destruct obstacle_ends as [-> _]. destruct wake_ends as [_ ->].
  destruct obstacle_outvars as [-> ->]. destruct wake_outvars as [-> ->].
  cbn [fst snd mbind option_bind].
  split; [reflexivity|]. split; [reflexivity|].
  rewrite eval_u_x, eval_wake_v.
  repeat split; try reflexivity.
  - simpl. f_equal. q2r. lra.
  - f_equal. lra.
Qed.

(** X9.  The far end of the wake line lies on the right wall of the
    rectangle, at a point the Outlet keeps, and there the wake targets
    equal the Outlet targets for every angle: the two conditions do not
    conflict where they meet. *)
Theorem wake_end_meets_outlet (a : R) :
  let rho := at_point (fst (end_1 wake)) (snd (end_1 wake)) a in
  fst (end_1 wake) = Q2R (fst (point_2 rec)) /\
  in_rectangle rec (fst (end_1 wake)) (snd (end_1 wake)) /\
  selected rho PotentialTrain.outletBC /\
  (outvar_sympy PotentialTrain.wakeLine !! "u") ≫= eval rho
    = Some (10 * cos a) /\
  (outvar_sympy PotentialTrain.outletBC !! "u") ≫= eval rho
    = Some (10 * cos a) /\
  (outvar_sympy PotentialTrain.wakeLine !! "v") ≫= eval rho
    = Some (10 * sin a) /\
  (outvar_sympy PotentialTrain.outletBC !! "v") ≫= eval rho
    = Some (10 * sin a).
Proof.
  destruct wake_ends as [-> _].
  destruct outlet_outvars as [-> ->]. destruct wake_outvars as [-> ->].
  cbn [fst snd mbind option_bind].
  rewrite selected_outlet_iff, eval_u_x, eval_u_y, eval_wake_v.
  unfold in_rectangle, rec; cbn [fst snd point_1 point_2]. q2r.
  repeat split; try lra. f_equal. lra.
Qed.

(** X10.  Along the wake line the target of [v] never exceeds the
    free-stream value in size and never has the opposite sign: it is the
    free-stream value scaled by a factor between 0 and 1. *)
Theorem wake_v_between (px py a : R) :
  fst (end_2 wake) <= px <= fst (end_1 wake) ->
  exists v,
    (outvar_sympy PotentialTrain.wakeLine !! "v") ≫= eval (at_point px py a)
      = Some v /\
    Rabs v <= Rabs (10 * sin a) /\
    0 <= v * sin a.
Proof.
  destruct wake_ends as [-> ->]. cbn [fst]. intros Hpx.
  destruct wake_outvars as [_ ->]. cbn [mbind option_bind].
  rewrite eval_wake_v. eexists. split; [reflexivity|].
  assert (Ht : 0 <= px / (3 / 10) <= 1) by (split; lra).
  split.
  - rewrite (Rabs_mult (10 * sin a)), (Rabs_pos_eq (px / (3 / 10))) by lra.
    pose proof (Rabs_pos (10 * sin a)). nra.
  - pose proof (Rle_0_sqr (sin a)) as Hs. unfold Rsqr in Hs. nra.
Qed.

Lemma wake_v_between_witness :
  fst (end_2 wake) <= 1 / 10 <= fst (end_1 wake) /\
  exists v,
    (outvar_sympy PotentialTrain.wakeLine !! "v") ≫=
      eval (at_point (1 / 10) 0 (PI / 18)) = Some v /\
    Rabs v <= Rabs (10 * sin (PI / 18)).
Proof.
  assert (H : fst (end_2 wake) <= 1 / 10 <= fst (end_1 wake)).
  { destruct wake_ends as [-> ->]. cbn [fst]. lra. }
  split; [exact H|].
  destruct (wake_v_between (1 / 10) 0 (PI / 18) H) as (v & Hv & Hb & _).
  exists v. split; [exact Hv | exact Hb].
Defined.

Local Close Scope R_scope.

(** ** [update_defaults] *)

(** X11.  [update_defaults] is idempotent: applying it to its own result
    changes nothing. *)
Theorem update_defaults_idempotent (defaults : gmap string pyval) :
  PotentialSolver.update_defaults (PotentialSolver.update_defaults defaults) =
  PotentialSolver.update_defaults defaults.
Proof.
  apply map_eq. intros k. unfold PotentialSolver.update_defaults.
  rewrite !lookup_insert. repeat case_decide; congruence.
Qed.

(** X12.  [update_defaults] overrides whatever the caller had stored
    under one of its five keys: the result does not depend on the earlier
    value. *)
Theorem update_defaults_overrides
    (defaults : gmap string pyval) (k : string) (v : pyval) :
  k ∈ [ "network_dir"; "decay_steps"; "max_steps"; "layer_size"; "nr_layer" ] ->
  PotentialSolver.update_defaults (<[k := v]> defaults) =
  PotentialSolver.update_defaults defaults.
Proof.
  intros Hk. apply list_elem_of_In in Hk. simpl in Hk.
  apply map_eq. intros j. unfold PotentialSolver.update_defaults.
  rewrite !lookup_insert.
  destruct Hk as [<-|[<-|[<-|[<-|[<-|[]]]]]];
    repeat case_decide; congruence.
Qed.

Lemma update_defaults_overrides_witness :
  ("max_steps" ∈
    [ "network_dir"; "decay_steps"; "max_steps"; "layer_size"; "nr_layer" ]) /\
  PotentialSolver.update_defaults (<["max_steps" := VInt 7]> ∅) =
  PotentialSolver.update_defaults ∅.
Proof.
  assert (H : "max_steps" ∈
    [ "network_dir"; "decay_steps"; "max_steps"; "layer_size"; "nr_layer" ])
    by (apply list_elem_of_In; simpl; tauto).
  split; [exact H | apply (update_defaults_overrides ∅ _ (VInt 7) H)].
Defined.

(** X13.  [update_defaults] leaves every other key of the caller's
    mapping as it was, and its result has exactly the caller's keys plus
    the five it sets. *)
Theorem update_defaults_preserves (defaults : gmap string pyval) (k : string) :
  k ∉ [ "network_dir"; "decay_steps"; "max_steps"; "layer_size"; "nr_layer" ] ->
  PotentialSolver.update_defaults defaults !! k = defaults !! k /\
  dom (PotentialSolver.update_defaults defaults) =
    ({[ "network_dir"; "decay_steps"; "max_steps"; "layer_size"; "nr_layer" ]}
       ∪ dom defaults : gset string).
Proof.
  intros Hk. split; [now apply update_defaults_other|].
  unfold PotentialSolver.update_defaults. rewrite !dom_insert_L.
  apply set_eq. intros j. set_unfold. tauto.
Qed.

Lemma update_defaults_preserves_witness :
  ("seed" ∉
    [ "network_dir"; "decay_steps"; "max_steps"; "layer_size"; "nr_layer" ]) /\
  PotentialSolver.update_defaults {[ "seed" := VInt 1 ]} !! "seed" =
    Some (VInt 1).
Proof.
  assert (H : "seed" ∉
    [ "network_dir"; "decay_steps"; "max_steps"; "layer_size"; "nr_layer" ])
    by (rewrite list_elem_of_In; simpl; intuition discriminate).
  split; [exact H|].
  destruct (update_defaults_preserves {[ "seed" := VInt 1 ]} "seed" H)
    as [-> _].
  apply lookup_singleton_eq.
Defined.

(** ** Names used by the training domain *)

Lemma PotentialTrain_init_list :
  PotentialTrain.init =
  [ ("Inlet", PotentialTrain.inletBC); ("Outlet", PotentialTrain.outletBC);
    ("BottomWall", PotentialTrain.bottomWall);
    ("obstacleLine", PotentialTrain.obstacleLine);
    ("wakeLine", PotentialTrain.wakeLine);
    ("Interior", PotentialTrain.interior);
    ("Neighbourhood", PotentialTrain.neighbourhood) ].
Proof. reflexivity. Qed.

Lemma Poisson_2D_has (k : string) :
  k ∈ [ "u"; "v"; "Poisson_2D" ] -> is_Some (Poisson_2D.equations !! k).
Proof.
  intros Hk. set_unfold in Hk.
  destruct Hk as [->|[->|[->|[]]]]; eexists; reflexivity.
Qed.

(** X14.  Every target name of every training sub-domain is an equation
    of [Poisson_2D], and every weight is named [lambda_] followed by a
    target of the same sub-domain: no sub-domain asks for a quantity the
    equation system does not define, or weights a term it does not
    have. *)
Theorem targets_are_equations :
  Forall (fun nb : string * bc =>
            map_Forall (fun k _ => is_Some (Poisson_2D.equations !! k))
                       (outvar_sympy (snd nb)) /\
            map_Forall (fun k _ =>
                          exists t, k = "lambda_" ++ t /\
                                    is_Some (outvar_sympy (snd nb) !! t))
                       (lambda_sympy (snd nb)))
         PotentialTrain.init.
Proof.
  rewrite PotentialTrain_init_list.
  repeat match goal with
         | |- Forall _ (_ :: _) => constructor
         | |- Forall _ [] => constructor
         end;
    cbn [snd]; split;
    repeat (apply map_Forall_insert_2;
            [first [ apply Poisson_2D_has; set_solver
                   | eexists; split; [reflexivity | eexists; reflexivity] ] |]);
    apply map_Forall_empty.
Qed.

Ltac occurs_cases H :=
  simpl in H;
  repeat (apply orb_prop in H as [H|H]);
  try discriminate H;
  apply String.eqb_eq in H; subst.

(** X15.  The targets of every training sub-domain mention no symbol
    besides the network inputs [x], [y], [alpha]; every symbol other than
    a coordinate has a sampling rule in that sub-domain's [param_ranges];
    and the criteria mention the coordinates only, so which points are
    kept never depends on the angle of attack. *)
Theorem symbols_are_inputs :
  Forall (fun nb : string * bc =>
            map_Forall (fun _ e =>
                          forall s, occurs s e = true ->
                            s ∈ inputs PotentialSolver.flow_net /\
                            (s = "x" \/ s = "y" \/
                             is_Some (param_ranges (snd nb) !! s)))
                       (outvar_sympy (snd nb)) /\
            (forall c s,
               criteria (snd nb) = Some c -> rel_occurs s c = true ->
               s = "x" \/ s = "y"))
         PotentialTrain.init.
Proof.
  rewrite PotentialTrain_init_list.
  repeat match goal with
         | |- Forall _ (_ :: _) => constructor
         | |- Forall _ [] => constructor
         end;
    cbn [snd]; split;
    try (intros c s Hc Hs; try discriminate Hc;
         injection Hc as <-; occurs_cases Hs; tauto);
    repeat (apply map_Forall_insert_2;
            [intros s Hs; occurs_cases Hs;
             (split; [apply list_elem_of_In; simpl; tauto|]);
             first [ left; reflexivity
                   | right; left; reflexivity
                   | right; right; eexists; reflexivity ] |]);
    apply map_Forall_empty.
Qed.

(** ** Sub-domain names *)

Lemma get_In (d : domain) (name : string) (b : bc) :
  get name d = Some b -> In (name, b) d.
Proof.
  unfold get. induction d as [|[n b'] d IH]; cbn.
  - discriminate.
  - destruct (String.eqb_spec name n) as [->|Hne]; cbn.
    + intros [= <-]. now left.
    + intros H. right. apply IH, H.
Qed.

Lemma In_get (d : domain) (name : string) (b : bc) :
  NoDup (map fst d) -> In (name, b) d -> get name d = Some b.
Proof.
  unfold get. induction d as [|[n b'] d IH]; cbn; intros Hnd Hin.
  - contradiction.
  - apply NoDup_cons in Hnd as [Hn Hnd].
    destruct Hin as [[= -> ->]|Hin].
    + now rewrite String.eqb_refl.
    + destruct (String.eqb_spec name n) as [->|Hne]; cbn.
      * exfalso. apply Hn. apply list_elem_of_In.
        apply (in_map fst) in Hin. exact Hin.
      * now apply IH.
Qed.

(** X16.  The seven sub-domains are added under pairwise different
    names, so looking a name up returns exactly the sub-domain that was
    added under it and nothing is shadowed. *)
Theorem subdomain_names_unique :
  NoDup (map fst PotentialTrain.init) /\
  length PotentialTrain.init = 7%nat /\
  forall name b,
    get name PotentialTrain.init = Some b <-> In (name, b) PotentialTrain.init.
Proof.
  assert (Hnd : NoDup (map fst PotentialTrain.init)).
  { rewrite subdomain_names.
    repeat (apply NoDup_cons; split;
            [rewrite list_elem_of_In; simpl; intuition discriminate|]).
    apply NoDup_nil. exact I. }
  split; [exact Hnd|]. split; [reflexivity|].
  intros name b. split; [apply get_In | now apply In_get].
Qed.

(** ** The equations as derivatives of the field *)

Lemma Poisson_2D_entries :
  Poisson_2D.equations !! "u" = Some (Deriv Poisson_2D.phi ["x"]) /\
  Poisson_2D.equations !! "v" = Some (Deriv Poisson_2D.phi ["y"]) /\
  Poisson_2D.equations !! "Poisson_2D" =
    Some (Add (Deriv Poisson_2D.phi ["x"; "x"])
              (Deriv Poisson_2D.phi ["y"; "y"])).
Proof.
  unfold Poisson_2D.equations. repeat split.
Qed.

Lemma diff_elementary (x : string) (e : expr) :
  elementary e = true -> elementary (diff e x) = true.
Proof.
  induction e as [c|s|a IHa b IHb|a IHa b IHb|a IHa b IHb|a IHa n|a IHa|a IHa|g args|a IHa wrt];
    simpl; intros He; try discriminate.
  - reflexivity.
  - now destruct (String.eqb x s).
  - apply andb_prop in He as [Ha Hb]. now rewrite IHa, IHb.
  - apply andb_prop in He as [Ha Hb]. now rewrite IHa, IHb, Ha, Hb.
  - destruct n as [|m]; simpl; [reflexivity|]. now rewrite He, IHa.
  - now rewrite He, IHa.
  - now rewrite He, IHa.
Qed.

(** X17.  Whatever elementary field is put in the place of [phi], the
    entries [u] and [v] of the equation system evaluate to the partial
    derivatives of that field in [x] and in [y]: the velocity is the
    gradient of the potential. *)
Theorem velocity_is_gradient (body : expr) (rho : env) :
  elementary body = true ->
  exists (fx fy : R -> R) (dx dy : R),
    (forall t, eval (upd rho "x" t) body = Some (fx t)) /\
    (forall t, eval (upd rho "y" t) body = Some (fy t)) /\
    derivable_pt_lim fx (rho "x") dx /\
    derivable_pt_lim fy (rho "y") dy /\
    (Poisson_2D.equations !! "u") ≫=
      (fun r => eval rho (doit (subs "phi" ["x"; "y"; "alpha"] body r)))
      = Some dx /\
    (Poisson_2D.equations !! "v") ≫=
      (fun r => eval rho (doit (subs "phi" ["x"; "y"; "alpha"] body r)))
      = Some dy.
Proof.
  intros Hb.
  destruct (diff_sound "x" body Hb rho) as (fx & dx & Hfx & Hdx & Hlx).
  destruct (diff_sound "y" body Hb rho) as (fy & dy & Hfy & Hdy & Hly).
  exists fx, fy, dx, dy.
  destruct Poisson_2D_entries as (-> & -> & _).
  repeat split; try assumption; simpl; now rewrite (doit_elementary body Hb).
Qed.

Lemma velocity_is_gradient_witness :
  elementary quadratic_field = true /\
  exists dx dy : R,
    (Poisson_2D.equations !! "u") ≫=
      (fun r => eval (with_constants 7 (-7) (at_point 3 5 0))
                  (doit (subs "phi" ["x"; "y"; "alpha"] quadratic_field r)))
      = Some dx /\
    (Poisson_2D.equations !! "v") ≫=
      (fun r => eval (with_constants 7 (-7) (at_point 3 5 0))
                  (doit (subs "phi" ["x"; "y"; "alpha"] quadratic_field r)))
      = Some dy.
Proof.
  split; [reflexivity|].
  destruct (velocity_is_gradient quadratic_field
              (with_constants 7 (-7) (at_point 3 5 0)) eq_refl)
    as (fx & fy & dx & dy & _ & _ & _ & _ & Hu & Hv).
  exists dx, dy. split; [exact Hu | exact Hv].
Defined.

(** X18.  For every elementary field the [Poisson_2D] residual is the
    derivative of the [u] entry in [x] plus the derivative of the [v]
    entry in [y]: the residual is the divergence of the velocity the same
    system defines. *)
Theorem residual_is_divergence (body : expr) (rho : env) :
  elementary body = true ->
  exists (gx gy : R -> R) (lx ly : R),
    (forall t,
       (Poisson_2D.equations !! "u") ≫=
         (fun r => eval (upd rho "x" t)
                     (doit (subs "phi" ["x"; "y"; "alpha"] body r)))
       = Some (gx t)) /\
    (forall t,
       (Poisson_2D.equations !! "v") ≫=
         (fun r => eval (upd rho "y" t)
                     (doit (subs "phi" ["x"; "y"; "alpha"] body r)))
       = Some (gy t)) /\
    derivable_pt_lim gx (rho "x") lx /\
    derivable_pt_lim gy (rho "y") ly /\
    (Poisson_2D.equations !! "Poisson_2D") ≫=
      (fun r => eval rho (doit (subs "phi" ["x"; "y"; "alpha"] body r)))
      = Some (lx + ly)%R.
Proof.
  intros Hb.
  destruct (diff_sound "x" (diff body "x") (diff_elementary "x" body Hb) rho)
    as (gx & lx & Hgx & Hdx & Hlx).
  destruct (diff_sound "y" (diff body "y") (diff_elementary "y" body Hb) rho)
    as (gy & ly & Hgy & Hdy & Hly).
  exists gx, gy, lx, ly.
  destruct Poisson_2D_entries as (-> & -> & ->).
  simpl. rewrite (doit_elementary body Hb).
  repeat split; try assumption.
  now rewrite Hdx, Hdy.
Qed.

Lemma residual_is_divergence_witness :
  elementary quadratic_field = true /\
  exists l : R,
    (Poisson_2D.equations !! "Poisson_2D") ≫=
      (fun r => eval (with_constants 7 (-7) (at_point 3 5 0))
                  (doit (subs "phi" ["x"; "y"; "alpha"] quadratic_field r)))
      = Some l.
Proof.
  split; [reflexivity|].
  destruct (residual_is_divergence quadratic_field
              (with_constants 7 (-7) (at_point 3 5 0)) eq_refl)
    as (gx & gy & lx & ly & _ & _ & _ & _ & H).
  exists (lx + ly)%R. exact H.
Defined.
